(** * Lethe: the anonymisation core, embedded and verified

    A shallow embedding of [core/validators.py], [core/entity_detector.py],
    [core/anonymizer.py], [core/crypto.py] and the text part of
    [core/document_parser.py].

    Conventions of the embedding.
    - A Python [str] is a list of code points.  The development covers the
      Latin-1 range (code points 0..255, Rocq's [ascii]): on that range
      [\d] is exactly [0-9], [str.lower] moves [A-Z] and [U+C0..U+DE]
      (without [U+D7]) by 32, and [len] is the length of the list.
    - A Python [bytes] is a list of [byte].
    - A [dict] is an association list in insertion order, which is the order
      its [items()] are visited in.
    - Randomness is explicit: the [random] module, Faker and [os.urandom]
      read from streams that are part of the state threaded through the
      calls.
    - Exceptions are values of a sum type. *)

From Stdlib Require Import Ascii String DecimalString.
From Stdlib Require Import List Bool Arith ZArith Lia Permutation Sorted.
From Stdlib.Strings Require Import Byte.
Import ListNotations.
Local Open Scope list_scope.

(** ** Python strings *)

Module PyStr.

Definition str := list ascii.

Definition lit (s : string) : str := list_ascii_of_string s.

Definition ord (c : ascii) : nat := nat_of_ascii c.

Definition chr (n : nat) : ascii := ascii_of_nat n.

Fixpoint str_eqb (a b : str) : bool :=
  match a, b with
  | [], [] => true
  | x :: a', y :: b' => Ascii.eqb x y && str_eqb a' b'
  | _, _ => false
  end.

(** [c in s] for a one-character [c]. *)
Definition contains_char (c : ascii) (s : str) : bool :=
  existsb (Ascii.eqb c) s.

(** [\d] on the Latin-1 range. *)
Definition is_digit (c : ascii) : bool :=
  (48 <=? ord c) && (ord c <=? 57).

(** [int(c)] for a digit character [c]. *)
Definition int_of_char (c : ascii) : nat := ord c - 48.

(** [str(n)] for a non-negative [int]. *)
Definition str_of_nat (n : nat) : str :=
  lit (NilZero.string_of_uint (Nat.to_uint n)).

(** [''.join(map(str, l))]. *)
Definition join_str_of_nat (l : list nat) : str :=
  flat_map str_of_nat l.

(** [str.lower] on one Latin-1 character. *)
Definition lower (c : ascii) : ascii :=
  let n := ord c in
  if ((65 <=? n) && (n <=? 90))
     || ((192 <=? n) && (n <=? 222) && negb (n =? 215))
  then chr (n + 32) else c.

(** The characters [str.strip()] removes (Latin-1 white space). *)
Definition is_space (c : ascii) : bool :=
  let n := ord c in
  ((9 <=? n) && (n <=? 13)) || ((28 <=? n) && (n <=? 32))
  || (n =? 133) || (n =? 160).

Fixpoint lstrip (s : str) : str :=
  match s with
  | c :: s' => if is_space c then lstrip s' else s
  | [] => []
  end.

Definition strip (s : str) : str := rev (lstrip (rev (lstrip s))).

(** [s.startswith(p)]. *)
Fixpoint starts_with (p s : str) : bool :=
  match p, s with
  | [], _ => true
  | x :: p', y :: s' => Ascii.eqb x y && starts_with p' s'
  | _ :: _, [] => false
  end.

(** A match of the escaped literal [p] at the head of [s] under
    [re.IGNORECASE]: characters are compared after lowering. *)
Fixpoint starts_with_ci (p s : str) : bool :=
  match p, s with
  | [], _ => true
  | x :: p', y :: s' => Ascii.eqb (lower x) (lower y) && starts_with_ci p' s'
  | _ :: _, [] => false
  end.

(** The left-to-right scan shared by [str.replace] and [re.sub] for a
    non-empty literal pattern: at each position, a match is replaced by
    [new m] ([m] the matched text) and the scan resumes behind it; [skip]
    counts the characters of the current match still to be passed over. *)
Fixpoint scan_replace (matches : str -> str -> bool) (old : str)
         (new : str -> str) (skip : nat) (s : str) : str :=
  match s with
  | [] => []
  | c :: s' =>
      match skip with
      | S k => scan_replace matches old new k s'
      | O =>
          if matches old s
          then new (firstn (length old) s)
                 ++ scan_replace matches old new (length old - 1) s'
          else c :: scan_replace matches old new 0 s'
      end
  end.

(** With an empty pattern both functions insert the replacement before
    every character and at the end. *)
Definition insert_everywhere (new s : str) : str :=
  new ++ flat_map (fun c => c :: new) s.

(** [s.replace(old, new)]. *)
Definition replace (old new s : str) : str :=
  match old with
  | [] => insert_everywhere new s
  | _ => scan_replace starts_with old (fun _ => new) 0 s
  end.

(** A replacement template without a backslash is inserted as it is by
    [re.sub]; with one, [re.sub] expands escapes and group references. *)
Definition literal_template (t : str) : bool :=
  negb (contains_char "\"%char t).

(** [re.compile(re.escape(old), re.IGNORECASE).sub(new, s)] for a literal
    template [new]. *)
Definition re_sub_ignorecase (old new s : str) : str :=
  match old with
  | [] => insert_everywhere new s
  | _ => scan_replace starts_with_ci old (fun _ => new) 0 s
  end.

(** ** Regular expressions of the extractors

    Every pattern of [validators.py] is a sequence of one-character
    classes, or ([\d{1,2}...]) a choice between two such sequences of which
    the longer one is tried first. *)

Inductive cls := Digit | DigitOrX | Chr (c : ascii).

Definition cls_match (k : cls) (c : ascii) : bool :=
  match k with
  | Digit => is_digit c
  | DigitOrX => is_digit c || Ascii.eqb c "X"%char || Ascii.eqb c "x"%char
  | Chr a => Ascii.eqb a c
  end.

Definition shape := list cls.

Fixpoint shape_match (p : shape) (s : str) : bool :=
  match p, s with
  | [], _ => true
  | k :: p', c :: s' => cls_match k c && shape_match p' s'
  | _ :: _, [] => false
  end.

(** A pattern: its alternatives in the order the matcher tries them. *)
Definition regex := list shape.

(** Length of the match of [r] at the head of [s], if there is one. *)
Fixpoint match_here (r : regex) (s : str) : option nat :=
  match r with
  | [] => None
  | p :: r' => if shape_match p s then Some (length p) else match_here r' s
  end.

(** [match.group(), match.start(), match.end()]. *)
Definition span := (str * nat * nat)%type.

(** [re.finditer]: leftmost, non-overlapping matches; [pos] is the offset
    of [s] in the text and [skip] the rest of the current match. *)
Fixpoint finditer_from (r : regex) (pos skip : nat) (s : str) : list span :=
  match s with
  | [] => []
  | _ :: s' =>
      match skip with
      | S k => finditer_from r (S pos) k s'
      | O =>
          match match_here r s with
          | Some (S n) =>
              (firstn (S n) s, pos, pos + S n) :: finditer_from r (S pos) n s'
          | _ => finditer_from r (S pos) 0 s'
          end
      end
  end.

Definition finditer (r : regex) (s : str) : list span := finditer_from r 0 0 s.

Definition digits (n : nat) : shape := repeat Digit n.

End PyStr.

Import PyStr.

(** ** The [random] module

    The generator is a stream of raw draws and a cursor;
    [randint(a, b)] reduces the next draw into [a..b]. *)

Module PyRandom.

Record rng := { draws : nat -> nat; cursor : nat }.

Definition advance (g : rng) : rng :=
  {| draws := draws g; cursor := S (cursor g) |}.

Definition randint (a b : nat) (g : rng) : nat * rng :=
  (a + draws g (cursor g) mod (b - a + 1), advance g).

(** [[random.randint(a, b) for _ in range(n)]]. *)
Fixpoint randints (n a b : nat) (g : rng) : list nat * rng :=
  match n with
  | O => ([], g)
  | S n' =>
      let (x, g1) := randint a b g in
      let (xs, g2) := randints n' a b g1 in
      (x :: xs, g2)
  end.

(** [random.choice(seq)] for a non-empty [seq]. *)
Definition choice {A} (default : A) (seq : list A) (g : rng) : A * rng :=
  (nth (draws g (cursor g) mod length seq) seq default, advance g).

End PyRandom.

Import PyRandom.

(** ** The proleptic Gregorian calendar of [datetime]

    [date(y, m, d)], [toordinal], [fromordinal] and [strftime] for the
    day-month-year formats, as [datetime] computes them. *)

Module PyDatetime.

Local Open Scope Z_scope.

(** year, month, day *)
Definition date := (Z * Z * Z)%type.

Definition _DAYS_IN_MONTH (month : Z) : Z :=
  match month with
  | 1 => 31 | 2 => 28 | 3 => 31 | 4 => 30 | 5 => 31 | 6 => 30
  | 7 => 31 | 8 => 31 | 9 => 30 | 10 => 31 | 11 => 30 | 12 => 31
  | _ => -1
  end.

Definition _DAYS_BEFORE_MONTH (month : Z) : Z :=
  match month with
  | 1 => 0 | 2 => 31 | 3 => 59 | 4 => 90 | 5 => 120 | 6 => 151
  | 7 => 181 | 8 => 212 | 9 => 243 | 10 => 273 | 11 => 304 | 12 => 334
  | _ => -1
  end.

Definition _is_leap (year : Z) : bool :=
  (year mod 4 =? 0) && (negb (year mod 100 =? 0) || (year mod 400 =? 0)).

Definition _days_before_year (year : Z) : Z :=
  let y := year - 1 in
  y * 365 + y / 4 - y / 100 + y / 400.

Definition _days_in_month (year month : Z) : Z :=
  if (month =? 2) && _is_leap year then 29 else _DAYS_IN_MONTH month.

Definition _days_before_month (year month : Z) : Z :=
  _DAYS_BEFORE_MONTH month
  + (if (2 <? month) && _is_leap year then 1 else 0).

Definition _ymd2ord (d : date) : Z :=
  let '(year, month, day) := d in
  _days_before_year year + _days_before_month year month + day.

Definition _DI400Y := 146097.
Definition _DI100Y := 36524.
Definition _DI4Y := 1461.

Definition _ord2ymd (n : Z) : date :=
  let n := n - 1 in
  let n400 := n / _DI400Y in
  let n := n mod _DI400Y in
  let year := n400 * 400 + 1 in
  let n100 := n / _DI100Y in
  let n := n mod _DI100Y in
  let n4 := n / _DI4Y in
  let n := n mod _DI4Y in
  let n1 := n / 365 in
  let n := n mod 365 in
  let year := year + n100 * 100 + n4 * 4 + n1 in
  if (n1 =? 4) || (n100 =? 4) then (year - 1, 12, 31)
  else
    let leapyear := (n1 =? 3) && (negb (n4 =? 24) || (n100 =? 3)) in
    let month := Z.shiftr (n + 50) 5 in
    let preceding :=
      _DAYS_BEFORE_MONTH month
      + (if (2 <? month) && leapyear then 1 else 0) in
    if n <? preceding then
      let month := month - 1 in
      let preceding :=
        preceding
        - (_DAYS_IN_MONTH month
           + (if (month =? 2) && leapyear then 1 else 0)) in
      (year, month, n - preceding + 1)
    else (year, month, n - preceding + 1).

(** The checks of the [datetime(year, month, day)] constructor; a failed
    check is a [ValueError]. *)
Definition valid_date (d : date) : bool :=
  let '(year, month, day) := d in
  (1 <=? year) && (year <=? 9999) && (1 <=? month) && (month <=? 12)
  && (1 <=? day) && (day <=? _days_in_month year month).

(** [a <= b] on dates. *)
Definition date_leb (a b : date) : bool := _ymd2ord a <=? _ymd2ord b.

(** [(b - a).days]. *)
Definition days_between (a b : date) : Z := _ymd2ord b - _ymd2ord a.

(** [a + timedelta(days=n)]. *)
Definition add_days (a : date) (n : Z) : date := _ord2ymd (_ymd2ord a + n).

(** A number written with at least [width] digits, zero-padded. *)
Definition zfill (width : nat) (n : Z) : str :=
  let s := str_of_nat (Z.to_nat n) in
  repeat "0"%char (width - length s) ++ s.

(** [d.strftime('%d<sep>%m<sep>%Y')] for a year of four digits. *)
Definition strftime_dmy (sep : ascii) (d : date) : str :=
  let '(year, month, day) := d in
  zfill 2 day ++ [sep] ++ zfill 2 month ++ [sep] ++ zfill 4 year.

(** The value of a string of digits. *)
Definition int_of_digits (s : str) : Z :=
  fold_left (fun acc c => acc * 10 + Z.of_nat (int_of_char c)) s 0.

(** [datetime.strptime(s, '%d<sep>%m<sep>%Y')] on the strings the date
    patterns match (two digits, separator, two digits, separator, four
    digits); [None] is the [ValueError] raised when a field is out of
    range or the date does not exist. *)
Definition strptime_dmy (sep : ascii) (s : str) : option date :=
  match s with
  | [d1; d2; s1; m1; m2; s2; y1; y2; y3; y4] =>
      if forallb is_digit [d1; d2; m1; m2; y1; y2; y3; y4]
         && Ascii.eqb s1 sep && Ascii.eqb s2 sep
      then
        let d := (int_of_digits [y1; y2; y3; y4],
                  int_of_digits [m1; m2], int_of_digits [d1; d2]) in
        if valid_date d then Some d else None
      else None
  | _ => None
  end.

End PyDatetime.

Import PyDatetime.

(** ** [core/validators.py] *)

Module Validators.

Definition sum (l : list nat) : nat := fold_right Nat.add 0 l.

(** [re.sub(r'\D', '', s)]. *)
Definition only_digits (s : str) : str := filter is_digit s.

Definition validate_cpf (cpf : str) : bool :=
  let cpf := only_digits cpf in
  if negb (length cpf =? 11) then false
  else if str_eqb cpf (repeat (nth 0 cpf "000"%char) 11) then false
  else
    let digit i := int_of_char (nth i cpf "000"%char) in
    let soma := sum (map (fun i => digit i * (10 - i)) (seq 0 9)) in
    let resto := soma mod 11 in
    let digito1 := if resto <? 2 then 0 else 11 - resto in
    if negb (digit 9 =? digito1) then false
    else
      let soma := sum (map (fun i => digit i * (11 - i)) (seq 0 10)) in
      let resto := soma mod 11 in
      let digito2 := if resto <? 2 then 0 else 11 - resto in
      digit 10 =? digito2.

(** [re.sub(r'[^0-9Xx]', '', s)]. *)
Definition rg_clean (rg : str) : str := filter (cls_match DigitOrX) rg.

Definition validate_rg (rg : str) : bool :=
  let rg_clean := rg_clean rg in
  if (length rg_clean <? 7) || (9 <? length rg_clean) then false else true.

(** [\d{3}\.\d{3}\.\d{3}-\d{2}] and [\d{11}]. *)
Definition cpf_patterns : list regex :=
  [ [digits 3 ++ [Chr "."] ++ digits 3 ++ [Chr "."] ++ digits 3
       ++ [Chr "-"] ++ digits 2];
    [digits 11] ].

(** The first loop of the extractors: for each pattern in turn, the
    matches that pass the filter, in text order. *)
Definition scan_patterns (keep : str -> bool) (patterns : list regex)
           (text : str) : list span :=
  flat_map (fun pattern =>
              filter (fun m => keep (fst (fst m))) (finditer pattern text))
           patterns.

(** The second loop of [extract_cpfs]: [seen] is the set of the cleaned
    values kept so far. *)
Fixpoint unique_by_digits (seen : list str) (results : list span) : list span :=
  match results with
  | [] => []
  | (cpf, start, end_) :: rest =>
      let cpf_clean := only_digits cpf in
      if existsb (str_eqb cpf_clean) seen
      then unique_by_digits seen rest
      else (cpf, start, end_) :: unique_by_digits (cpf_clean :: seen) rest
  end.

Definition extract_cpfs (text : str) : list span :=
  unique_by_digits [] (scan_patterns validate_cpf cpf_patterns text).

(** [\d{2}\.\d{3}\.\d{3}-[\dXx]] and [\d{1,2}\.\d{3}\.\d{3}]. *)
Definition rg_patterns : list regex :=
  [ [digits 2 ++ [Chr "."] ++ digits 3 ++ [Chr "."] ++ digits 3
       ++ [Chr "-"; DigitOrX]];
    [digits 2 ++ [Chr "."] ++ digits 3 ++ [Chr "."] ++ digits 3;
     digits 1 ++ [Chr "."] ++ digits 3 ++ [Chr "."] ++ digits 3] ].

Definition extract_rgs (text : str) : list span :=
  scan_patterns validate_rg rg_patterns text.

(** The date patterns with the separator of their [strptime] format. *)
Definition date_pattern (sep : ascii) : regex :=
  [digits 2 ++ [Chr sep] ++ digits 2 ++ [Chr sep] ++ digits 4].

Definition date_separators : list ascii := ["/"; "-"; "."]%char.

(** [(date_str, start, end, date_obj)] *)
Definition date_span := (str * nat * nat * date)%type.

(** [current_year] is [datetime.now().year]. *)
Definition extract_birth_dates (current_year : Z) (text : str) : list date_span :=
  flat_map
    (fun sep =>
       flat_map
         (fun m : span =>
            let '(date_str, start, end_) := m in
            match strptime_dmy sep date_str with
            | Some date_obj =>
                let age := (current_year - fst (fst date_obj))%Z in
                if ((0 <=? age) && (age <=? 120))%Z
                then [(date_str, start, end_, date_obj)]
                else []
            | None => []
            end)
         (finditer (date_pattern sep) text))
    date_separators.

(** The two check digits appended by [generate_valid_cpf]. *)
Definition generate_valid_cpf (g : rng) : str * rng :=
  let (cpf, g) := randints 9 0 9 g in
  let soma := sum (map (fun i => nth i cpf 0 * (10 - i)) (seq 0 9)) in
  let resto := soma mod 11 in
  let cpf := cpf ++ [if resto <? 2 then 0 else 11 - resto] in
  let soma := sum (map (fun i => nth i cpf 0 * (11 - i)) (seq 0 10)) in
  let resto := soma mod 11 in
  let cpf := cpf ++ [if resto <? 2 then 0 else 11 - resto] in
  let cpf_str := join_str_of_nat cpf in
  (firstn 3 cpf_str ++ lit "." ++ firstn 3 (skipn 3 cpf_str) ++ lit "."
     ++ firstn 3 (skipn 6 cpf_str) ++ lit "-" ++ skipn 9 cpf_str, g).

Definition generate_valid_rg (g : rng) : str * rng :=
  let (rg, g) := randints 8 0 9 g in
  let (last_digit, g) :=
    choice [] (map str_of_nat (seq 0 10) ++ [lit "X"]) g in
  let rg_str := join_str_of_nat rg in
  (firstn 2 rg_str ++ lit "." ++ firstn 3 (skipn 2 rg_str) ++ lit "."
     ++ firstn 3 (skipn 5 rg_str) ++ lit "-" ++ last_digit, g).

End Validators.

Import Validators.

(** ** [core/entity_detector.py] *)

Module EntityDetector.

Inductive entity_kind := PERSON | CPF | RG | DATE.

Record DetectedEntity := {
  text : str;
  entity_type : entity_kind;
  start : nat;
  end_ : nat;
  extra : option date  (* [{'datetime': date_obj}] for a date *)
}.

(** One element of [doc.ents]. *)
Record Ent := {
  ent_text : str;
  label_ : str;
  start_char : nat;
  end_char : nat
}.

(** The loaded spaCy pipeline, [self.nlp]: the detector is used with the
    model installed (loading it fails with [RuntimeError] before any
    detection otherwise). *)
Definition pipeline := str -> list Ent.

(** The loop of [detect_persons] over [doc.ents]. *)
Fixpoint persons_of_ents (seen_texts : list str) (ents : list Ent)
  : list DetectedEntity :=
  match ents with
  | [] => []
  | ent :: rest =>
      if str_eqb (label_ ent) (lit "PER") then
        let normalized := strip (ent_text ent) in
        if negb (str_eqb normalized [])
           && negb (existsb (str_eqb normalized) seen_texts)
        then {| text := normalized; entity_type := PERSON;
                start := start_char ent; end_ := end_char ent;
                extra := None |}
               :: persons_of_ents (normalized :: seen_texts) rest
        else persons_of_ents seen_texts rest
      else persons_of_ents seen_texts rest
  end.

Definition detect_persons (nlp : pipeline) (txt : str) : list DetectedEntity :=
  persons_of_ents [] (nlp txt).

Definition entity_of_span (k : entity_kind) (m : span) : DetectedEntity :=
  let '(value, start, end_) := m in
  {| text := value; entity_type := k; start := start; end_ := end_;
     extra := None |}.

Definition detect_cpfs (txt : str) : list DetectedEntity :=
  map (entity_of_span CPF) (extract_cpfs txt).

Definition detect_rgs (txt : str) : list DetectedEntity :=
  map (entity_of_span RG) (extract_rgs txt).

Definition detect_dates (current_year : Z) (txt : str) : list DetectedEntity :=
  map (fun m : date_span =>
         let '(date_str, start, end_, date_obj) := m in
         {| text := date_str; entity_type := DATE; start := start;
            end_ := end_; extra := Some date_obj |})
      (extract_birth_dates current_year txt).

(** The result of [detect_all], a dict with these four keys. *)
Record Entities := {
  persons : list DetectedEntity;
  cpfs : list DetectedEntity;
  rgs : list DetectedEntity;
  dates : list DetectedEntity
}.

Definition detect_all (nlp : pipeline) (current_year : Z) (txt : str) : Entities :=
  {| persons := detect_persons nlp txt;
     cpfs := detect_cpfs txt;
     rgs := detect_rgs txt;
     dates := detect_dates current_year txt |}.

(** A [set] of strings: its elements, each once.  The order of the list
    is not the order a Python set is iterated in; only membership and
    [len] are read from it. *)
Definition str_set := list str.

(** [s.add(x)] *)
Definition set_add (x : str) (s : str_set) : str_set :=
  if existsb (str_eqb x) s then s else s ++ [x].

(** [{e.text for e in entity_list}] *)
Definition texts_of (entity_list : list DetectedEntity) : str_set :=
  fold_left (fun s e => set_add (text e) s) entity_list [].

(** [get_unique_values], on the dict [detect_all] returns: the keys and
    their order are those of [entities]. *)
Definition get_unique_values (entities : Entities) : list (str * str_set) :=
  [(lit "persons", texts_of (persons entities));
   (lit "cpfs", texts_of (cpfs entities));
   (lit "rgs", texts_of (rgs entities));
   (lit "dates", texts_of (dates entities))].

End EntityDetector.

(** ** [core/anonymizer.py] *)

Module Anonymizer.

Import EntityDetector.

(** [Dict[str, str]] in insertion order. *)
Definition dict := list (str * str).

(** [k in d] *)
Definition dict_contains (k : str) (d : dict) : bool :=
  existsb (fun kv => str_eqb k (fst kv)) d.

(** [d[k] = v] *)
Fixpoint dict_set (k v : str) (d : dict) : dict :=
  match d with
  | [] => [(k, v)]
  | (k', v') :: d' =>
      if str_eqb k k' then (k', v) :: d' else (k', v') :: dict_set k v d'
  end.

(** [self.mapping]: a dict with the keys [persons], [cpfs], [rgs] and
    [dates], created in this order. *)
Record Mapping := {
  persons : dict;
  cpfs : dict;
  rgs : dict;
  dates : dict
}.

Definition empty_mapping : Mapping :=
  {| persons := []; cpfs := []; rgs := []; dates := [] |}.

(** [mapping.items()] *)
Definition items (m : Mapping) : list (str * dict) :=
  [(lit "persons", persons m); (lit "cpfs", cpfs m);
   (lit "rgs", rgs m); (lit "dates", dates m)].

(** Faker: the names [self.faker.name()] returns, one after the other. *)
Record Faker := { names : nat -> str; served : nat }.

Definition faker_name (f : Faker) : str * Faker :=
  (names f (served f), {| names := names f; served := S (served f) |}).

(** The state an [Anonymizer] works on: its mapping, its Faker, and the
    generator of the [random] module. *)
Record state := {
  mapping : Mapping;
  faker : Faker;
  random : rng
}.

(** [Anonymizer(seed)]: the seed (or its absence) fixes the two
    generators; the mapping is empty. *)
Definition init (f : Faker) (g : rng) : state :=
  {| mapping := empty_mapping; faker := f; random := g |}.

Definition _generate_adult_date (original_date : str) (g : rng) : str * rng :=
  let separator :=
    if contains_char "/" original_date then "/"%char
    else if contains_char "-" original_date then "-"%char
    else "."%char in
  let start_date : date := (1950, 1, 1)%Z in
  let end_date : date := (2006, 12, 31)%Z in
  let delta_days := days_between start_date end_date in
  let (random_days, g) := randint 0 (Z.to_nat delta_days) g in
  let fake_date := add_days start_date (Z.of_nat random_days) in
  (strftime_dmy separator fake_date, g).

(** One loop of [generate_replacements]: every entity whose text is not
    yet a key gets a value from [make]. *)
Definition fill {S} (make : str -> S -> str * S)
           (entities : list DetectedEntity) (d : dict) (s : S) : dict * S :=
  fold_left
    (fun (acc : dict * S) entity =>
       let (d, s) := acc in
       let original := text entity in
       if dict_contains original d then (d, s)
       else let (value, s) := make original s in (dict_set original value d, s))
    entities (d, s).

Definition generate_replacements (entities : Entities) (st : state) : state :=
  let m := mapping st in
  let (persons', f) :=
    fill (fun _ => faker_name) (EntityDetector.persons entities)
         (persons m) (faker st) in
  let (cpfs', g) :=
    fill (fun _ => generate_valid_cpf) (EntityDetector.cpfs entities)
         (cpfs m) (random st) in
  let (rgs', g) :=
    fill (fun _ => generate_valid_rg) (EntityDetector.rgs entities)
         (rgs m) g in
  let (dates', g) :=
    fill _generate_adult_date (EntityDetector.dates entities) (dates m) g in
  {| mapping := {| persons := persons'; cpfs := cpfs'; rgs := rgs';
                   dates := dates' |};
     faker := f; random := g |}.

(** [sorted(items, key=lambda x: len(x[0]), reverse=True)]: the sort is
    stable, also with [reverse=True]. *)
Fixpoint insert_by_len (x : str * str) (l : dict) : dict :=
  match l with
  | [] => [x]
  | y :: l' =>
      if length (fst x) <? length (fst y) then y :: insert_by_len x l'
      else x :: l
  end.

Definition sorted_by_len (d : dict) : dict := fold_right insert_by_len [] d.

(** The substitution of [anonymize] (the lines after
    [generate_replacements]), for literal person templates. *)
Definition substitute (m : Mapping) (txt : str) : str :=
  let anonymized_text := txt in
  let sorted_persons := sorted_by_len (persons m) in
  let anonymized_text :=
    fold_left (fun t kv => re_sub_ignorecase (fst kv) (snd kv) t)
              sorted_persons anonymized_text in
  let anonymized_text :=
    fold_left (fun t kv => replace (fst kv) (snd kv) t)
              (cpfs m) anonymized_text in
  let anonymized_text :=
    fold_left (fun t kv => replace (fst kv) (snd kv) t)
              (rgs m) anonymized_text in
  fold_left (fun t kv => replace (fst kv) (snd kv) t)
            (dates m) anonymized_text.

(** [anonymize]: the anonymised text, the mapping, and the state left
    behind in the instance. *)
Definition anonymize (nlp : pipeline) (current_year : Z) (txt : str)
           (st : state) : str * Mapping * state :=
  let entities := detect_all nlp current_year txt in
  let st := generate_replacements entities st in
  (substitute (mapping st) txt, mapping st, st).

(** [reverse], for any dict of dicts [mapping]. *)
Definition reverse (anonymized_text : str) (mapping : list (str * dict)) : str :=
  fold_left
    (fun t (entry : str * dict) =>
       let (entity_type, type_mapping) := entry in
       fold_left
         (fun t kv =>
            let (original, replacement) := (kv : str * str) in
            if str_eqb entity_type (lit "persons")
            then re_sub_ignorecase replacement original t
            else replace replacement original t)
         type_mapping t)
    mapping anonymized_text.

Definition get_summary (st : state) : list (str * nat) :=
  [(lit "nomes", length (persons (mapping st)));
   (lit "cpfs", length (cpfs (mapping st)));
   (lit "rgs", length (rgs (mapping st)));
   (lit "datas", length (dates (mapping st)))].

End Anonymizer.

(** ** [core/crypto.py]

    The module composes library functions: PBKDF2-HMAC-SHA256 and Fernet
    of [cryptography], [base64], [json], the UTF-8 codec and [os.urandom].
    HMAC (RFC 2104) and PBKDF2 (RFC 8018) are written out over the hash
    function; the hash, Fernet, Base64, JSON and the decoder are the
    fields of a [library]. *)

Module Crypto.

Import Anonymizer.

Definition bytes := list byte.

Definition byte_of_nat (n : nat) : byte := byte_of_ascii (chr n).

(** [s.encode()] (UTF-8) of a string of Latin-1 code points. *)
Definition utf8_encode (s : str) : bytes :=
  flat_map (fun c =>
              let n := ord c in
              if n <? 128 then [byte_of_nat n]
              else [byte_of_nat (192 + n / 64); byte_of_nat (128 + n mod 64)])
           s.

(** The values [json.loads] can return and [json.dumps] takes (floating
    point numbers left out). *)
Local Unset Elimination Schemes.
Inductive pyvalue :=
| PyNone
| PyBool (b : bool)
| PyInt (z : Z)
| PyStr (s : str)
| PyList (l : list pyvalue)
| PyDict (d : list (str * pyvalue)).
Local Set Elimination Schemes.

Definition pydict (d : dict) : pyvalue :=
  PyDict (map (fun kv => (fst kv, PyStr (snd kv))) d).

(** A [Mapping] as the Python value it is. *)
Definition pymapping (m : Mapping) : pyvalue :=
  PyDict (map (fun kd => (fst kd, pydict (snd kd))) (items m)).

Inductive exn :=
| ValueError (msg : string)
| UnicodeDecodeError.

(** The two errors [decrypt_mapping] raises itself. *)
Definition AuthenticationError : exn :=
  ValueError "Senha incorreta ou dados corrompidos".
Definition CorruptDataError : exn :=
  ValueError "Dados corrompidos - não é JSON válido".

Definition result (A : Type) := (exn + A)%type.

(** [os.urandom(n)]: [n] bytes of the system's entropy [pool]. *)
Definition os_urandom (pool : nat -> byte) (n : nat) : bytes :=
  map pool (seq 0 n).

Definition xor_byte (a b : byte) : byte :=
  match Byte.of_N (N.lxor (Byte.to_N a) (Byte.to_N b)) with
  | Some c => c
  | None => x00
  end.

Fixpoint xor_bytes (a b : bytes) : bytes :=
  match a, b with
  | x :: a', y :: b' => xor_byte x y :: xor_bytes a' b'
  | _, _ => []
  end.




(** The library functions [crypto.py] calls. *)
Record library := {
  (** SHA-256 (block size 64 bytes, digest size 32 bytes) *)
  sha256 : bytes -> bytes;
  urlsafe_b64encode : bytes -> bytes;
  (** what [Fernet.encrypt] reads besides key and data: clock and IV *)
  fresh : Type;
  fernet_encrypt : bytes -> fresh -> bytes -> bytes;
  (** [Fernet(key).decrypt(token)]; [None] is [InvalidToken] *)
  fernet_decrypt : bytes -> bytes -> option bytes;
  (** [json.dumps(v, ensure_ascii=False)] *)
  json_dumps : pyvalue -> str;
  (** [json.loads(s)]; [None] is [json.JSONDecodeError] *)
  json_loads : str -> option pyvalue;
  (** [b.decode('utf-8')]; [None] is [UnicodeDecodeError] *)
  utf8_decode : bytes -> option str
}.

Section WithLibrary.

Variable L : library.

(** The key block of HMAC: a key longer than the block is hashed, and the
    key is padded with zeros to the block size. *)
Definition hmac_key_block (key : bytes) : bytes :=
  let key := if 64 <? length key then sha256 L key else key in
  key ++ repeat x00 (64 - length key).

Definition hmac_sha256 (key msg : bytes) : bytes :=
  let k := hmac_key_block key in
  sha256 L (map (xor_byte x5c) k ++ sha256 L (map (xor_byte x36) k ++ msg)).

(** The first block of PBKDF2, [U_1 xor ... xor U_c] with
    [U_1 = PRF(P, S || INT(1))]; the pair is [(U_j, T)]. *)
Definition pbkdf2_block1 (password salt : bytes) (iterations : N) : bytes :=
  let u1 := hmac_sha256 password (salt ++ [x00; x00; x00; x01]) in
  snd (N.iter (iterations - 1)
              (fun ut : bytes * bytes =>
                 let u := hmac_sha256 password (fst ut) in
                 (u, xor_bytes (snd ut) u))
              (u1, u1)).

(** [PBKDF2HMAC(SHA256(), length, salt, iterations).derive(password)] for
    a [length] of at most one digest, which is one block. *)
Definition pbkdf2_hmac_sha256 (length : nat) (salt : bytes) (iterations : N)
           (password : bytes) : bytes :=
  firstn length (pbkdf2_block1 password salt iterations).

Definition _derive_key (password : str) (salt : bytes) : bytes :=
  urlsafe_b64encode L
    (pbkdf2_hmac_sha256 32 salt 480000 (utf8_encode password)).

Definition encrypt_mapping (mapping : pyvalue) (password : str)
           (pool : nat -> byte) (fr : fresh L) : bytes :=
  let salt := os_urandom pool 16 in
  let key := _derive_key password salt in
  let json_data := utf8_encode (json_dumps L mapping) in
  let encrypted := fernet_encrypt L key fr json_data in
  salt ++ encrypted.

Definition decrypt_mapping (encrypted_data : bytes) (password : str)
  : result pyvalue :=
  let salt := firstn 16 encrypted_data in
  let encrypted := skipn 16 encrypted_data in
  let key := _derive_key password salt in
  match fernet_decrypt L key encrypted with
  | None => inl AuthenticationError
  | Some decrypted =>
      match utf8_decode L decrypted with
      | None => inl UnicodeDecodeError
      | Some s =>
          match json_loads L s with
          | None => inl CorruptDataError
          | Some v => inr v
          end
      end
  end.



End WithLibrary.

End Crypto.

(** ** [core/document_parser.py]

    The text extractor and the choice of the extractor for a document
    given as bytes.  The extractors of [.docx], [.doc] and [.pdf] files
    are library calls and appear by name only. *)

Module DocumentParser.

Import Crypto.

Inductive encoding := UTF_8 | LATIN_1 | CP1252 | ISO_8859_1.

(** The decoders [bytes.decode] uses that are not written out here, on
    the texts of the Latin-1 range this development covers; [None] is
    [UnicodeDecodeError]. *)
Record codecs := {
  utf_8 : bytes -> option str;
  cp1252 : bytes -> option str;
  (** [b.decode('utf-8', errors='ignore')] *)
  utf_8_ignore : bytes -> str
}.

(** [latin-1] and [iso-8859-1] name one codec: every byte is the code
    point of its value, and every byte string decodes. *)
Definition latin_1 (b : bytes) : str := map ascii_of_byte b.

(** [file_bytes.decode(encoding)] *)
Definition decode (C : codecs) (e : encoding) (file_bytes : bytes)
  : option str :=
  match e with
  | UTF_8 => utf_8 C file_bytes
  | LATIN_1 | ISO_8859_1 => Some (latin_1 file_bytes)
  | CP1252 => cp1252 C file_bytes
  end.

(** The loop of [_extract_txt]: the first encoding that decodes. *)
Fixpoint first_decoding (C : codecs) (encodings : list encoding)
         (file_bytes : bytes) : option (encoding * str) :=
  match encodings with
  | [] => None
  | e :: rest =>
      match decode C e file_bytes with
      | Some s => Some (e, s)
      | None => first_decoding C rest file_bytes
      end
  end.

Definition encodings : list encoding := [UTF_8; LATIN_1; CP1252; ISO_8859_1].

Definition _extract_txt (C : codecs) (file_bytes : bytes) : str :=
  match first_decoding C encodings file_bytes with
  | Some (_, s) => s
  | None => utf_8_ignore C file_bytes
  end.

(** The functions the table [extractors] holds. *)
Inductive extractor :=
| extract_txt
| extract_docx
| extract_doc
| extract_pdf.

(** The dict [extractors] of [extract_text], in the order it is written. *)
Definition extractors : list (str * extractor) :=
  [(lit "txt", extract_txt); (lit "docx", extract_docx);
   (lit "doc", extract_doc); (lit "pdf", extract_pdf)].

(** [d.get(k)] *)
Fixpoint dict_get {A} (k : str) (d : list (str * A)) : option A :=
  match d with
  | [] => None
  | (k', v) :: d' => if str_eqb k k' then Some v else dict_get k d'
  end.

(** The two [ValueError]s of [extract_text]. *)
Inductive extract_error :=
| FileTypeRequired
| UnsupportedFileType (file_type : str).

(** [extract_text(source, file_type)] for a [source] of type [bytes], up
    to the call of the extractor it chooses; [file_type] is [None] when
    the argument is left out. *)
Definition extract_text_bytes (file_type : option str)
  : extract_error + extractor :=
  match file_type with
  | None | Some [] => inl FileTypeRequired
  | Some file_type =>
      match dict_get file_type extractors with
      | None => inl (UnsupportedFileType file_type)
      | Some f => inr f
      end
  end.

Definition get_supported_extensions : list str :=
  [lit "txt"; lit "docx"; lit "doc"; lit "pdf"].

End DocumentParser.

(** * Properties *)

(** ** Auxiliary definitions of the statements *)

(** The character of a decimal digit. *)
Definition digit_char (d : nat) : ascii := chr (48 + d).

(** A generator of the [random] module whose every raw draw is [d]. *)
Definition constant_rng (d : nat) : rng := {| draws := fun _ => d; cursor := 0 |}.

(** The [n] draws the generator [g] hands out next, reduced to digits. *)
Definition next_digits (n : nat) (g : rng) : list nat :=
  map (fun i => draws g (cursor g + i) mod 10) (seq 0 n).

Definition all_equal (l : list nat) : bool :=
  forallb (Nat.eqb (nth 0 l 0)) l.

(** [P z] for the [n] integers from [z] on. *)
Fixpoint forall_upto (n : nat) (P : Z -> bool) (z : Z) : bool :=
  match n with
  | O => true
  | S n' => P z && forall_upto n' P (Z.succ z)
  end.

(** The range [_generate_adult_date] draws from. *)
Definition adult_start : date := (1950, 1, 1)%Z.
Definition adult_end : date := (2006, 12, 31)%Z.

(** A whole string of the shape [p]. *)
Definition has_shape (p : shape) (s : str) : Prop :=
  shape_match p s = true /\ length s = length p.

(** A date of the calendar within the range of [_generate_adult_date]. *)
Definition adult_date_ok (d : date) : bool :=
  valid_date d && date_leb adult_start d && date_leb d adult_end
  && (1950 <=? fst (fst d))%Z && (fst (fst d) <=? 2006)%Z.

(** [zfill w n] has [w] digits and reads back as [n]. *)
Definition pad_ok (w : nat) (n : Z) : bool :=
  (length (zfill w n) =? w) && forallb is_digit (zfill w n)
  && (int_of_digits (zfill w n) =? n)%Z.

(** The one alternative of [date_pattern sep]. *)
Definition date_shape (sep : ascii) : shape :=
  digits 2 ++ [Chr sep] ++ digits 2 ++ [Chr sep] ++ digits 4.

(** A pipeline that finds no entity. *)
Definition no_persons : EntityDetector.pipeline := fun _ => [].

(** A Faker that always returns [name]. *)
Definition constant_faker (name : str) : Anonymizer.Faker :=
  {| Anonymizer.names := fun _ => name; Anonymizer.served := 0 |}.

(** The parts of a match. *)
Definition value (m : span) : str := fst (fst m).
Definition span_start (m : span) : nat := snd (fst m).

(** A match of [extract_cpfs] reduced to its digits. *)
Definition normalized (m : span) : str := only_digits (value m).

(** The valid matches of both CPF patterns: what the first loop of
    [extract_cpfs] collects. *)
Definition cpf_candidates (txt : str) : list span :=
  scan_patterns validate_cpf cpf_patterns txt.

(** A match of the punctuated pattern (14 characters; a bare one has 11). *)
Definition punctuated (m : span) : bool := length (value m) =? 14.

(** The order in which [extract_cpfs] meets its candidates: punctuated
    matches first, and matches of one pattern in text order. *)
Definition scan_before (x y : span) : Prop :=
  (punctuated x = true /\ punctuated y = false)
  \/ (punctuated x = punctuated y /\ span_start x < span_start y).

(** C8 as it is claimed: the entry kept for a value is its first
    occurrence in the text. *)
Definition keeps_first_in_text (txt : str) : Prop :=
  forall e m, In e (extract_cpfs txt) -> In m (cpf_candidates txt) ->
              normalized m = normalized e -> span_start e <= span_start m.

(** The instance [st] with its mapping emptied. *)
Definition with_empty_mapping (st : Anonymizer.state) : Anonymizer.state :=
  {| Anonymizer.mapping := Anonymizer.empty_mapping;
     Anonymizer.faker := Anonymizer.faker st;
     Anonymizer.random := Anonymizer.random st |}.

(** The states an instance goes through: created, then used for any
    number of [anonymize] calls. *)
Inductive reachable (nlp : EntityDetector.pipeline) (current_year : Z)
  : Anonymizer.state -> Prop :=
| reachable_init f g : reachable nlp current_year (Anonymizer.init f g)
| reachable_anonymize st txt :
    reachable nlp current_year st ->
    reachable nlp current_year
              (snd (Anonymizer.anonymize nlp current_year txt st)).

(** C5 as it is claimed: a call on a used instance gives what it gives
    on an empty mapping. *)
Definition starts_from_empty_mapping (nlp : EntityDetector.pipeline)
           (current_year : Z) : Prop :=
  forall st txt,
    reachable nlp current_year st ->
    fst (Anonymizer.anonymize nlp current_year txt st)
    = fst (Anonymizer.anonymize nlp current_year txt (with_empty_mapping st)).

(** [d'] is [d] with entries added behind it. *)
Definition extends (d d' : Anonymizer.dict) : Prop := exists added, d' = d ++ added.

(** "Every occurrence of [old] is replaced by [new]", for a scan from the
    left: the text is cut into stretches in which no occurrence starts and
    the occurrences between them, and each occurrence gives way to [new]. *)
Inductive substituted (matches : str -> str -> bool) (old new : str)
  : str -> str -> Prop :=
| substituted_none s :
    (forall k, k < length s -> matches old (skipn k s) = false) ->
    substituted matches old new s s
| substituted_occ pre m rest out :
    (forall k, k < length pre ->
               matches old (skipn k (pre ++ m ++ rest)) = false) ->
    matches old (m ++ rest) = true ->
    length m = length old ->
    substituted matches old new rest out ->
    substituted matches old new (pre ++ m ++ rest) (pre ++ new ++ out).

(** Keys in descending order of length. *)
Definition longer_first (x y : str * str) : Prop :=
  length (fst y) <= length (fst x).

(** A mapping with entries for persons only. *)
Definition persons_only (d : Anonymizer.dict) : Anonymizer.Mapping :=
  {| Anonymizer.persons := d; Anonymizer.cpfs := [];
     Anonymizer.rgs := []; Anonymizer.dates := [] |}.

(** [Maria Silva e Maria foram ao médico] *)
Definition maria_text : str :=
  lit "Maria Silva e Maria foram ao m" ++ [chr 233] ++ lit "dico".

(** ** The contracts of the libraries behind [crypto.py] *)

(** A dict has each key once. *)
Definition dict_ok (d : Anonymizer.dict) : Prop := NoDup (map fst d).

Definition mapping_ok (m : Anonymizer.Mapping) : Prop :=
  dict_ok (Anonymizer.persons m) /\ dict_ok (Anonymizer.cpfs m)
  /\ dict_ok (Anonymizer.rgs m) /\ dict_ok (Anonymizer.dates m).

(** What [crypto.py] relies on: Fernet decrypts what it encrypted under
    the same key and rejects the empty token; decoding undoes encoding;
    [json.loads] undoes [json.dumps] on a mapping. *)
Record contracts (L : Crypto.library) : Prop := {
  fernet_roundtrip :
    forall key fr data,
      Crypto.fernet_decrypt L key (Crypto.fernet_encrypt L key fr data)
      = Some data;
  fernet_rejects_empty :
    forall key, Crypto.fernet_decrypt L key [] = None;
  utf8_roundtrip :
    forall s, Crypto.utf8_decode L (Crypto.utf8_encode s) = Some s;
  json_roundtrip :
    forall m, mapping_ok m ->
      Crypto.json_loads L (Crypto.json_dumps L (Crypto.pymapping m))
      = Some (Crypto.pymapping m)
}.


(** *** A small library that meets the contracts

    It stands in for the real one where a statement is tried on a concrete
    input: a "cipher" that prefixes a version byte and the key, a decoder
    for the two-byte range of UTF-8, and a length-prefixed notation for
    mappings. *)
Module Toy.

Import Crypto.

Fixpoint bytes_prefix (p b : bytes) : bool :=
  match p, b with
  | [], _ => true
  | x :: p', y :: b' => Byte.eqb x y && bytes_prefix p' b'
  | _ :: _, [] => false
  end.

Definition encrypt (key : bytes) (_ : unit) (data : bytes) : bytes :=
  x80 :: key ++ data.

Definition decrypt (key token : bytes) : option bytes :=
  match token with
  | x80 :: rest =>
      if bytes_prefix key rest then Some (skipn (length key) rest) else None
  | _ => None
  end.

Definition nat_of_byte (b : byte) : nat := ord (ascii_of_byte b).

Fixpoint decode (b : bytes) : option str :=
  match b with
  | [] => Some []
  | x :: rest =>
      if nat_of_byte x <? 128 then option_map (cons (ascii_of_byte x)) (decode rest)
      else
        match rest with
        | y :: rest' =>
            if (194 <=? nat_of_byte x) && (nat_of_byte x <=? 195)
               && (128 <=? nat_of_byte y) && (nat_of_byte y <? 192)
            then option_map
                   (cons (chr ((nat_of_byte x - 192) * 64 + (nat_of_byte y - 128))))
                   (decode rest')
            else None
        | [] => None
        end
  end.

(** A number in unary, a string behind its length, a dict behind its
    number of entries. *)
Definition enc_nat (n : nat) : str := repeat "1"%char n ++ ["0"%char].
Definition enc_str (s : str) : str := enc_nat (length s) ++ s.
Definition str_of_value (v : pyvalue) : str :=
  match v with PyStr s => s | _ => [] end.
Definition enc_dict (d : list (str * pyvalue)) : str :=
  enc_nat (length d)
  ++ flat_map (fun kv => enc_str (fst kv) ++ enc_str (str_of_value (snd kv))) d.

Definition dumps (v : pyvalue) : str :=
  match v with
  | PyDict [(_, PyDict a); (_, PyDict b); (_, PyDict c); (_, PyDict d)] =>
      enc_dict a ++ enc_dict b ++ enc_dict c ++ enc_dict d
  | _ => []
  end.

Fixpoint dec_nat (s : str) : option (nat * str) :=
  match s with
  | [] => None
  | c :: s' =>
      if Ascii.eqb c "0" then Some (0, s')
      else if Ascii.eqb c "1"
           then match dec_nat s' with
                | Some (n, rest) => Some (S n, rest)
                | None => None
                end
           else None
  end.

Definition dec_str (s : str) : option (str * str) :=
  match dec_nat s with
  | Some (n, rest) =>
      if n <=? length rest then Some (firstn n rest, skipn n rest) else None
  | None => None
  end.

Fixpoint dec_entries (n : nat) (s : str) : option (list (str * pyvalue) * str) :=
  match n with
  | O => Some ([], s)
  | S n' =>
      match dec_str s with
      | Some (k, s1) =>
          match dec_str s1 with
          | Some (v, s2) =>
              match dec_entries n' s2 with
              | Some (l, rest) => Some ((k, PyStr v) :: l, rest)
              | None => None
              end
          | None => None
          end
      | None => None
      end
  end.

Definition dec_dict (s : str) : option (list (str * pyvalue) * str) :=
  match dec_nat s with
  | Some (n, rest) => dec_entries n rest
  | None => None
  end.

Definition loads (s : str) : option pyvalue :=
  match dec_dict s with
  | Some (a, s1) =>
      match dec_dict s1 with
      | Some (b, s2) =>
          match dec_dict s2 with
          | Some (c, s3) =>
              match dec_dict s3 with
              | Some (d, []) =>
                  Some (PyDict [(lit "persons", PyDict a); (lit "cpfs", PyDict b);
                                (lit "rgs", PyDict c); (lit "dates", PyDict d)])
              | _ => None
              end
          | None => None
          end
      | None => None
      end
  | None => None
  end.

Definition lib : library :=
  {| sha256 := fun _ => [];
     urlsafe_b64encode := fun b => b;
     fresh := unit;
     fernet_encrypt := encrypt;
     fernet_decrypt := decrypt;
     json_dumps := dumps;
     json_loads := loads;
     utf8_decode := decode |}.

(** A mapping and an entropy pool to try statements on. *)
Definition mapping : Anonymizer.Mapping :=
  {| Anonymizer.persons := [(lit "Maria Silva", lit "Ana Lima")];
     Anonymizer.cpfs := [(lit "529.982.247-25", lit "307.418.529-50")];
     Anonymizer.rgs := [];
     Anonymizer.dates := [(lit "15/03/1990", lit "11/01/1980")] |}.

Definition pool : nat -> byte := fun _ => x2a.

End Toy.


(** ** Texts cut into plain pieces and occurrences of mapped values

    The statement of the round trip follows a text through the
    substitutions: the text is a list of tokens, an occurrence being shown
    as its original or as its replacement. *)
Module Tokens.

Import Anonymizer.

(** One entry of the mapping as the pipeline uses it: how it is matched
    (in any case for persons, exactly otherwise), original, replacement. *)
Record entry := { anycase : bool; original : str; replacement : str }.

Definition entry_eqb (a b : entry) : bool :=
  Bool.eqb (anycase a) (anycase b) && str_eqb (original a) (original b)
  && str_eqb (replacement a) (replacement b).

Inductive token := Plain (s : str) | Occ (e : entry).

















Definition exact (kv : str * str) : entry :=
  {| anycase := false; original := fst kv; replacement := snd kv |}.





End Tokens.

(** ** Auxiliary definitions of the further properties *)

(** The check digit [validate_cpf] computes from the digits before it:
    [weight] is 10 for the first one and 11 for the second. *)
Definition check_digit (weight : nat) (cpf : str) : nat :=
  let soma := sum (map (fun i => int_of_char (nth i cpf "000"%char) * (weight - i))
                       (seq 0 (weight - 1))) in
  let resto := soma mod 11 in
  if resto <? 2 then 0 else 11 - resto.


(** [p in t], with letters compared after lowering when [anycase]: an
    occurrence of [p] starts at one of the offsets 0 to [len(t)]. *)
Definition occurs_in (anycase : bool) (p t : str) : bool :=
  existsb (fun k => (if anycase then starts_with_ci else starts_with)
                      p (skipn k t))
          (seq 0 (S (length t))).

(** The keys of a dict, in insertion order. *)
Definition keys (d : Anonymizer.dict) : list str := map fst d.

(** The formats the generators write: the punctuated CPF pattern and the
    RG pattern with its check character. *)
Definition cpf_format : shape := hd [] (hd [] cpf_patterns).
Definition rg_format : shape := hd [] (hd [] rg_patterns).

(** Codecs to try statements on: the decoder of the small library for
    UTF-8, a [cp1252] that refuses everything, and a fallback that drops
    everything. *)
Definition toy_codecs : DocumentParser.codecs :=
  {| DocumentParser.utf_8 := Toy.decode;
     DocumentParser.cp1252 := fun _ => None;
     DocumentParser.utf_8_ignore := fun _ => [] |}.

(** The text of the entity is the piece of [txt] between its offsets. *)
Definition located (txt : str) (e : EntityDetector.DetectedEntity) : Prop :=
  EntityDetector.end_ e
  = EntityDetector.start e + length (EntityDetector.text e)
  /\ EntityDetector.end_ e <= length txt
  /\ EntityDetector.text e
     = firstn (length (EntityDetector.text e))
              (skipn (EntityDetector.start e) txt).

Import Anonymizer.

(** ** Strings and digits *)

Lemma str_eqb_eq (a b : str) : str_eqb a b = true <-> a = b.
Proof.
  revert b; induction a as [|x a IH]; intros [|y b]; simpl; split;
    try congruence; try reflexivity.
  - intros H. apply andb_true_iff in H as [Hx Hr].
    apply Ascii.eqb_eq in Hx. apply IH in Hr. congruence.
  - intros H. injection H as -> ->.
    rewrite Ascii.eqb_refl. simpl. now apply IH.
Qed.

Lemma str_eqb_refl (a : str) : str_eqb a a = true.
Proof. now apply str_eqb_eq. Qed.

Lemma str_eqb_neq (a b : str) : str_eqb a b = false <-> a <> b.
Proof.
  split.
  - intros H E. apply str_eqb_eq in E. congruence.
  - intros H. destruct (str_eqb a b) eqn:E; [|reflexivity].
    apply str_eqb_eq in E. contradiction.
Qed.

Ltac digit_cases d H :=
  do 10 (destruct d as [|d]; [try reflexivity|]); exfalso; lia.

Lemma str_of_nat_digit (d : nat) : d < 10 -> str_of_nat d = [digit_char d].
Proof. intros H. digit_cases d H. Qed.

Lemma is_digit_digit_char (d : nat) : d < 10 -> is_digit (digit_char d) = true.
Proof. intros H. digit_cases d H. Qed.

Lemma int_of_digit_char (d : nat) : d < 10 -> int_of_char (digit_char d) = d.
Proof. intros H. digit_cases d H. Qed.

Lemma digit_char_inj (a b : nat) :
  a < 10 -> b < 10 -> digit_char a = digit_char b -> a = b.
Proof.
  intros Ha Hb E.
  rewrite <- (int_of_digit_char a Ha), <- (int_of_digit_char b Hb).
  now rewrite E.
Qed.

Lemma join_digits (l : list nat) :
  Forall (fun d => d < 10) l -> join_str_of_nat l = map digit_char l.
Proof.
  induction 1 as [|d l Hd _ IH]; [reflexivity|].
  unfold join_str_of_nat in *. simpl. rewrite IH, str_of_nat_digit by assumption.
  reflexivity.
Qed.

(** ** The generator of the [random] module *)

Lemma randints_digits (n : nat) (g : rng) :
  randints n 0 9 g
  = (next_digits n g, {| draws := draws g; cursor := cursor g + n |}).
Proof.
  revert g; induction n as [|n IH]; intros g.
  - unfold next_digits; simpl. rewrite Nat.add_0_r. now destruct g.
  - cbn [randints randint]. rewrite IH. unfold next_digits.
    cbn [seq map advance draws cursor]. f_equal.
    + f_equal; [now rewrite Nat.add_0_r|].
      rewrite <- seq_shift, map_map. apply map_ext. intros i.
      now rewrite Nat.add_succ_r.
    + f_equal. lia.
Qed.

Lemma next_digits_bound (n : nat) (g : rng) :
  Forall (fun d => d < 10) (next_digits n g).
Proof.
  apply Forall_forall. intros d Hd. unfold next_digits in Hd.
  apply in_map_iff in Hd as (i & <- & _). apply Nat.mod_upper_bound. lia.
Qed.

Lemma next_digits_length (n : nat) (g : rng) : length (next_digits n g) = n.
Proof. unfold next_digits. now rewrite length_map, length_seq. Qed.

Lemma filter_all {A} (f : A -> bool) (l : list A) :
  Forall (fun x => f x = true) l -> filter f l = l.
Proof.
  induction 1 as [|x l Hx _ IH]; [reflexivity|]. simpl. now rewrite Hx, IH.
Qed.

Lemma Forall_firstn' {A} (P : A -> Prop) n (l : list A) :
  Forall P l -> Forall P (firstn n l).
Proof.
  intros H. apply Forall_forall. intros x Hx.
  eapply Forall_forall; [exact H|]. rewrite <- (firstn_skipn n l).
  apply in_or_app. now left.
Qed.

Lemma Forall_skipn' {A} (P : A -> Prop) n (l : list A) :
  Forall P l -> Forall P (skipn n l).
Proof.
  intros H. apply Forall_forall. intros x Hx.
  eapply Forall_forall; [exact H|]. rewrite <- (firstn_skipn n l).
  apply in_or_app. now right.
Qed.

Lemma digit_chars_are_digits (l : list nat) :
  Forall (fun d => d < 10) l ->
  Forall (fun c => is_digit c = true) (map digit_char l).
Proof.
  intros H. apply Forall_map. eapply Forall_impl; [|exact H].
  intros d Hd. now apply is_digit_digit_char.
Qed.

(** ** [generate_valid_cpf] against [validate_cpf] *)

Lemma only_digits_cpf_format (l : str) :
  Forall (fun c => is_digit c = true) l ->
  only_digits (firstn 3 l ++ lit "." ++ firstn 3 (skipn 3 l) ++ lit "."
                 ++ firstn 3 (skipn 6 l) ++ lit "-" ++ skipn 9 l) = l.
Proof.
  intros H. unfold only_digits. rewrite !filter_app.
  change (filter is_digit (lit ".")) with (@nil ascii).
  change (filter is_digit (lit "-")) with (@nil ascii).
  cbn [app].
  rewrite !filter_all
    by (repeat first [apply Forall_firstn' | apply Forall_skipn']; exact H).
  replace (skipn 9 l) with (skipn 3 (skipn 6 l))
    by (now rewrite skipn_skipn).
  rewrite firstn_skipn.
  replace (skipn 6 l) with (skipn 3 (skipn 3 l))
    by (now rewrite skipn_skipn).
  rewrite firstn_skipn. apply firstn_skipn.
Qed.

Lemma check_digit_bound (soma : nat) :
  (if soma mod 11 <? 2 then 0 else 11 - soma mod 11) < 10.
Proof.
  pose proof (Nat.mod_upper_bound soma 11 ltac:(discriminate)).
  destruct (soma mod 11 <? 2) eqn:E; [lia|]. apply Nat.ltb_ge in E. lia.
Qed.

(** C2.  Every string [generate_valid_cpf] returns should satisfy
    [validate_cpf].  It does not: when the nine random digits are all 1 the
    two check digits are 1 as well, the generator returns
    [111.111.111-11], and the validator rejects a CPF of eleven equal
    digits. *)
Theorem generate_valid_cpf_equal_digits_rejected :
  fst (generate_valid_cpf (constant_rng 1)) = lit "111.111.111-11"
  /\ validate_cpf (fst (generate_valid_cpf (constant_rng 1))) = false.
Proof. split; vm_compute; reflexivity. Qed.

(** The generator's result is valid exactly when the nine random digits
    are not all the same. *)
Lemma generate_valid_cpf_valid_iff (g : rng) :
  validate_cpf (fst (generate_valid_cpf g)) = negb (all_equal (next_digits 9 g)).
Proof.
  unfold generate_valid_cpf. rewrite randints_digits. cbn [fst].
  generalize (next_digits_bound 9 g), (next_digits_length 9 g).
  generalize (next_digits 9 g) as ds. clear g. intros ds Hb Hl.
  do 10 (destruct ds as [|? ds]; try discriminate Hl). clear Hl.
  repeat match goal with
         | H : Forall _ (_ :: _) |- _ => apply Forall_cons_iff in H as [? H]
         end.
  clear Hb.
  destruct (all_equal _) eqn:E.
  - unfold all_equal in E. cbn [nth forallb] in E.
    repeat match goal with
           | H : _ && _ = true |- _ => apply andb_true_iff in H as [? H]
           | H : (_ =? _) = true |- _ => apply Nat.eqb_eq in H
           end.
    subst.
    match goal with H : ?n < 10 |- _ => 
      do 10 (destruct n as [|n]; [vm_compute; reflexivity|]); exfalso; lia end.
  - cbv zeta.
    match goal with |- context [ (?l ++ [?c]) ++ _ ] =>
      assert (Hc1 : c < 10) by apply check_digit_bound;
      remember c as c1 eqn:Ec1 end.
    cbn [app] in *.
    match goal with |- context [ [c1; ?c] ] =>
      assert (Hc2 : c < 10) by apply check_digit_bound;
      remember c as c2 eqn:Ec2 end.
    match goal with |- context [join_str_of_nat ?l] =>
      assert (Hl : Forall (fun d => d < 10) l)
        by (repeat (apply Forall_cons; [assumption|]); apply Forall_nil) end.
    rewrite (join_digits _ Hl).
    unfold validate_cpf.
    rewrite only_digits_cpf_format by (apply digit_chars_are_digits; exact Hl).
    clear Hl.
    cbn [map length Nat.eqb negb nth repeat].
    match goal with |- (if str_eqb ?a ?b then _ else _) = _ =>
      destruct (str_eqb a b) eqn:S end.
    + exfalso. apply str_eqb_eq in S.
      injection S as S2 S3 S4 S5 S6 S7 S8 S9 _ _.
      apply digit_char_inj in S2, S3, S4, S5, S6, S7, S8, S9; try assumption.
      subst. unfold all_equal in E. cbn [nth forallb] in E.
      rewrite Nat.eqb_refl in E. discriminate.
    + cbn [seq map nth] in *.
      repeat (rewrite int_of_digit_char by assumption).
      rewrite <- Ec1, Nat.eqb_refl. cbn [negb].
      rewrite <- Ec2, Nat.eqb_refl. reflexivity.
Qed.

(** ** [generate_valid_rg] against [validate_rg] *)

Lemma rg_chars_digit_chars (l : list nat) :
  Forall (fun d => d < 10) l ->
  Forall (fun c => cls_match DigitOrX c = true) (map digit_char l).
Proof.
  intros H. apply Forall_map. eapply Forall_impl; [|exact H].
  intros d Hd. unfold cls_match. now rewrite is_digit_digit_char.
Qed.

Lemma rg_clean_format (l last : str) :
  Forall (fun c => cls_match DigitOrX c = true) l ->
  length l = 8 ->
  rg_clean (firstn 2 l ++ lit "." ++ firstn 3 (skipn 2 l) ++ lit "."
              ++ firstn 3 (skipn 5 l) ++ lit "-" ++ last)
  = l ++ rg_clean last.
Proof.
  intros H Hl. unfold rg_clean. rewrite !filter_app.
  change (filter (cls_match DigitOrX) (lit ".")) with (@nil ascii).
  change (filter (cls_match DigitOrX) (lit "-")) with (@nil ascii).
  cbn [app].
  rewrite !filter_all
    by (repeat first [apply Forall_firstn' | apply Forall_skipn']; exact H).
  rewrite !app_assoc. f_equal.
  do 9 (destruct l as [|? l]; try discriminate Hl). reflexivity.
Qed.

(** The eleven values [random.choice] picks the last character from. *)
Lemma rg_last_choice (g : rng) :
  length (rg_clean (fst (choice [] (map str_of_nat (seq 0 10) ++ [lit "X"]) g)))
  = 1.
Proof.
  unfold choice. cbn [fst].
  match goal with |- context [nth (?k mod ?n) _ _] =>
    assert (Hk : k mod n < 11) by (apply Nat.mod_upper_bound; discriminate);
    set (i := k mod n) in *; clearbody i end.
  do 11 (destruct i as [|i]; [reflexivity|]). exfalso; lia.
Qed.

(** C10.  Every string [generate_valid_rg] returns satisfies [validate_rg]:
    stripped to digits and X it has exactly 9 characters, within the
    accepted range of 7 to 9. *)
Theorem generate_valid_rg_validates (g : rng) :
  length (rg_clean (fst (generate_valid_rg g))) = 9
  /\ validate_rg (fst (generate_valid_rg g)) = true.
Proof.
  assert (L : length (rg_clean (fst (generate_valid_rg g))) = 9).
  { unfold generate_valid_rg. rewrite randints_digits.
    destruct (choice _ _ _) as [last g'] eqn:Ec. cbn [fst].
    rewrite (join_digits _ (next_digits_bound 8 g)).
    rewrite rg_clean_format.
    - rewrite length_app, length_map, next_digits_length.
      pose proof (rg_last_choice
                    {| draws := draws g; cursor := cursor g + 8 |}) as Hc.
      rewrite Ec in Hc. cbn [fst] in Hc. now rewrite Hc.
    - apply rg_chars_digit_chars, next_digits_bound.
    - now rewrite length_map, next_digits_length. }
  split; [exact L|].
  unfold validate_rg. rewrite L. reflexivity.
Qed.

(** ** Regular expressions *)

Lemma shape_match_length (p : shape) (s : str) :
  shape_match p s = true -> length p <= length s.
Proof.
  revert s; induction p as [|k p IH]; intros [|c s]; simpl; intros H;
    try lia; try discriminate.
  apply andb_true_iff in H as [_ H]. apply IH in H. lia.
Qed.

Lemma shape_match_firstn (p : shape) (s : str) :
  shape_match p s = true -> shape_match p (firstn (length p) s) = true.
Proof.
  revert s; induction p as [|k p IH]; intros [|c s]; simpl; intros H;
    try reflexivity; try discriminate.
  apply andb_true_iff in H as [Hc H]. rewrite Hc. simpl. now apply IH.
Qed.

Lemma match_here_Some (r : regex) (s : str) (n : nat) :
  match_here r s = Some n ->
  exists p, In p r /\ shape_match p s = true /\ n = length p.
Proof.
  induction r as [|p r IH]; simpl; [discriminate|].
  destruct (shape_match p s) eqn:E.
  - intros [= <-]. exists p. auto.
  - intros H. destruct (IH H) as (q & Hq & Hm & Hn). exists q. auto.
Qed.

(** What a match returned by [finditer] is: a piece of the text at its
    reported offsets that one alternative of the pattern matches. *)
Lemma finditer_from_In (r : regex) (s : str) (pos skip : nat) (m : str) (a b : nat) :
  In (m, a, b) (finditer_from r pos skip s) ->
  pos + skip <= a /\ b = a + length m /\ b <= pos + length s
  /\ m = firstn (length m) (skipn (a - pos) s)
  /\ exists p, In p r /\ shape_match p m = true /\ length m = length p.
Proof.
  revert pos skip; induction s as [|c s IH]; intros pos skip;
    cbn [finditer_from]; [contradiction|].
  assert (Hrec : forall k, In (m, a, b) (finditer_from r (S pos) k s) ->
                 pos + S k <= a /\ b = a + length m
                 /\ b <= pos + length (c :: s)
                 /\ m = firstn (length m) (skipn (a - pos) (c :: s))
                 /\ exists p, In p r /\ shape_match p m = true
                              /\ length m = length p).
  { intros k H. apply IH in H as (H1 & H2 & H3 & H4 & H5).
    split; [lia|]. split; [lia|]. split; [simpl length; lia|].
    split; [|exact H5].
    replace (a - pos) with (S (a - S pos)) by lia. exact H4. }
  destruct skip as [|k].
  - destruct (match_here r (c :: s)) as [[|n]|] eqn:E.
    + intros H. apply Hrec in H. intuition lia.
    + intros [H|H].
      * assert (Em : m = firstn (S n) (c :: s)) by congruence.
        assert (Ea : a = pos) by congruence.
        assert (Eb : b = pos + S n) by congruence.
        clear H. subst m a b.
        apply match_here_Some in E as (p & Hp & Hm & Hn).
        pose proof (shape_match_length _ _ Hm) as Hl.
        assert (Hf : length (firstn (S n) (c :: s)) = S n)
          by (apply firstn_length_le; lia).
        rewrite Hf. split; [lia|]. split; [lia|]. split; [lia|]. split.
        -- rewrite Nat.sub_diag. reflexivity.
        -- exists p. rewrite Hn. split; [exact Hp|]. split; [|lia].
           now apply shape_match_firstn.
      * apply Hrec in H. intuition lia.
    + intros H. apply Hrec in H. intuition lia.
  - intros H. apply Hrec in H. intuition lia.
Qed.

Lemma finditer_In (r : regex) (s m : str) (a b : nat) :
  In (m, a, b) (finditer r s) ->
  b = a + length m /\ b <= length s
  /\ m = firstn (length m) (skipn a s)
  /\ exists p, In p r /\ shape_match p m = true /\ length m = length p.
Proof.
  intros H. apply finditer_from_In in H as (H1 & H2 & H3 & H4 & H5).
  rewrite Nat.sub_0_r in H4. repeat split; try assumption; lia.
Qed.

(** ** Dates *)

Lemma forall_upto_spec (n : nat) (P : Z -> bool) (z : Z) :
  forall_upto n P z = true ->
  forall k, (z <= k < z + Z.of_nat n)%Z -> P k = true.
Proof.
  revert z; induction n as [|n IH]; intros z H k Hk; [lia|].
  cbn [forall_upto] in H. apply andb_true_iff in H as [Hz H].
  destruct (Z.eq_dec k z) as [->|Hne]; [exact Hz|].
  apply (IH _ H). lia.
Qed.

Lemma adult_days_ok :
  forall_upto (Z.to_nat 20819)
              (fun n => adult_date_ok (add_days adult_start n)) 0 = true.
Proof. vm_compute. reflexivity. Qed.

Lemma adult_date_ok_elim (d : date) :
  adult_date_ok d = true ->
  valid_date d = true /\ date_leb adult_start d = true
  /\ date_leb d adult_end = true /\ (1950 <= fst (fst d) <= 2006)%Z.
Proof.
  unfold adult_date_ok. intros Hk.
  repeat match goal with
         | H : _ && _ = true |- _ => apply andb_true_iff in H as [H ?]
         end.
  repeat split; try assumption; lia.
Qed.

(** Every day the generator can reach from 1 January 1950 is a date of
    the calendar between that day and 31 December 2006. *)
Lemma adult_day (n : Z) :
  (0 <= n <= 20818)%Z -> adult_date_ok (add_days adult_start n) = true.
Proof.
  intros Hn.
  assert (Hr : (0 <= n < 0 + Z.of_nat (Z.to_nat 20819))%Z)
    by (rewrite Z2Nat.id; lia).
  exact (forall_upto_spec (Z.to_nat 20819)
           (fun n => adult_date_ok (add_days adult_start n)) 0
           adult_days_ok n Hr).
Qed.

Lemma pad_ok_spec (w : nat) (n : Z) :
  pad_ok w n = true ->
  length (zfill w n) = w /\ forallb is_digit (zfill w n) = true
  /\ int_of_digits (zfill w n) = n.
Proof.
  unfold pad_ok. intros H.
  apply andb_true_iff in H as [H H3]. apply andb_true_iff in H as [H1 H2].
  apply Nat.eqb_eq in H1. apply Z.eqb_eq in H3. auto.
Qed.

Lemma zfill2_ok (n : Z) : (1 <= n <= 31)%Z -> pad_ok 2 n = true.
Proof.
  intros H. apply (forall_upto_spec 31 (pad_ok 2) 1); [vm_compute; reflexivity|lia].
Qed.

Lemma zfill4_ok (n : Z) : (1950 <= n <= 2006)%Z -> pad_ok 4 n = true.
Proof.
  intros H. apply (forall_upto_spec 57 (pad_ok 4) 1950); [vm_compute; reflexivity|lia].
Qed.

(** A date between 1950 and 2006 printed by [strftime] has the shape of
    the date pattern and is read back by [strptime]. *)
Lemma strftime_dmy_shape (sep : ascii) (d : date) :
  valid_date d = true -> (1950 <= fst (fst d) <= 2006)%Z ->
  has_shape (date_shape sep) (strftime_dmy sep d)
  /\ strptime_dmy sep (strftime_dmy sep d) = Some d.
Proof.
  destruct d as [[y m] dd]. cbn [fst]. intros Hv Hy.
  assert (Hv' := Hv). unfold valid_date in Hv'.
  repeat match goal with
         | H : _ && _ = true |- _ => apply andb_true_iff in H as [H ?]
         end.
  assert (Hm : (1 <= m <= 12)%Z) by lia.
  assert (Hd : (1 <= dd <= 31)%Z).
  { split; [lia|]. assert (_days_in_month y m <= 31)%Z; [|lia].
    unfold _days_in_month. destruct (_ && _); [lia|].
    assert (m = 1 \/ m = 2 \/ m = 3 \/ m = 4 \/ m = 5 \/ m = 6 \/ m = 7
            \/ m = 8 \/ m = 9 \/ m = 10 \/ m = 11 \/ m = 12)%Z as Hc by lia.
    repeat (destruct Hc as [->|Hc]; [vm_compute; discriminate|]).
    subst; vm_compute; discriminate. }
  destruct (pad_ok_spec _ _ (zfill2_ok dd Hd)) as (L1 & D1 & V1).
  destruct (pad_ok_spec _ _ (zfill2_ok m ltac:(lia))) as (L2 & D2 & V2).
  destruct (pad_ok_spec _ _ (zfill4_ok y Hy)) as (L3 & D3 & V3).
  unfold strftime_dmy.
  destruct (zfill 2 dd) as [|a [|b [|]]]; try discriminate L1.
  destruct (zfill 2 m) as [|c [|e [|]]]; try discriminate L2.
  destruct (zfill 4 y) as [|w [|x [|y' [|z [|]]]]]; try discriminate L3.
  cbn [forallb] in D1, D2, D3.
  repeat match goal with
         | H : _ && _ = true |- _ => apply andb_true_iff in H as [? H]
         end.
  split.
  - split; [|reflexivity].
    cbn [app date_shape digits repeat shape_match cls_match].
    repeat match goal with H : is_digit _ = true |- _ => rewrite H; clear H end.
    rewrite !Ascii.eqb_refl. reflexivity.
  - cbn [app strptime_dmy forallb].
    repeat match goal with H : is_digit _ = true |- _ => rewrite H; clear H end.
    rewrite !Ascii.eqb_refl. cbn [andb]. rewrite V1, V2, V3, Hv. reflexivity.
Qed.

(** ** Dictionaries and the loops of [generate_replacements] *)

Lemma dict_set_In (k v : str) (d : dict) (a b : str) :
  In (a, b) (dict_set k v d) -> In (a, b) d \/ (a = k /\ b = v).
Proof.
  induction d as [|[k' v'] d IH]; simpl.
  - intros [H|[]]. injection H as <- <-. now right.
  - destruct (str_eqb k k') eqn:E.
    + apply str_eqb_eq in E. subst k'. intros [H|H].
      * injection H as <- <-. now right.
      * left. now right.
    + intros [H|H]; [left; now left|].
      destruct (IH H) as [H'|H']; [left; now right|now right].
Qed.

Lemma fill_In {S} (make : str -> S -> str * S)
      (entities : list EntityDetector.DetectedEntity) (d : dict) (s : S)
      (a b : str) :
  In (a, b) (fst (fill make entities d s)) ->
  In (a, b) d
  \/ exists e s', In e entities /\ a = EntityDetector.text e
                  /\ b = fst (make a s').
Proof.
  unfold fill. revert d s.
  induction entities as [|e entities IH]; intros d s; cbn [fold_left fst].
  - now left.
  - intros H. destruct (dict_contains (EntityDetector.text e) d).
    + destruct (IH _ _ H) as [H'|(e' & s' & He & Ha & Hb)]; [now left|].
      right. exists e', s'. split; [now right|]. now split.
    + destruct (make (EntityDetector.text e) s) as [value s1] eqn:Em.
      destruct (IH _ _ H) as [H'|(e' & s' & He & Ha & Hb)].
      * apply dict_set_In in H' as [H'|[-> ->]]; [now left|].
        right. exists e, s. split; [now left|]. split; [reflexivity|].
        now rewrite Em.
      * right. exists e', s'. split; [now right|]. now split.
Qed.

(** ** Detected dates *)

Lemma extract_birth_dates_shape (current_year : Z) (txt date_str : str)
      (a b : nat) (date_obj : date) :
  In (date_str, a, b, date_obj) (extract_birth_dates current_year txt) ->
  exists sep, In sep date_separators /\ has_shape (date_shape sep) date_str.
Proof.
  unfold extract_birth_dates. intros H.
  apply in_flat_map in H as (sep & Hsep & H).
  apply in_flat_map in H as ([[m s] e] & Hm & H).
  exists sep. split; [exact Hsep|].
  destruct (strptime_dmy sep m) as [obj|]; [|contradiction].
  destruct (_ && _)%Z; [|contradiction].
  destruct H as [H|[]]. injection H as -> _ _ _.
  apply finditer_In in Hm as (_ & _ & _ & p & Hp & Hs & Hl).
  destruct Hp as [<-|[]]. split; assumption.
Qed.

Lemma digit_not_separator (c : ascii) :
  is_digit c = true ->
  Ascii.eqb "/" c = false /\ Ascii.eqb "-" c = false /\ Ascii.eqb "." c = false.
Proof.
  destruct c as [[] [] [] [] [] [] [] []]; vm_compute; intros H;
    try discriminate H; auto.
Qed.

(** The separator [_generate_adult_date] reads off a matched date. *)
Lemma separator_of_date (sep : ascii) (original : str) :
  In sep date_separators -> has_shape (date_shape sep) original ->
  (if contains_char "/" original then "/"%char
   else if contains_char "-" original then "-"%char else "."%char) = sep.
Proof.
  intros Hsep [Hm Hl].
  do 11 (destruct original as [|? original]; try discriminate Hl).
  cbn [date_shape digits repeat app shape_match cls_match] in Hm.
  repeat match goal with
         | H : _ && _ = true |- _ => apply andb_true_iff in H as [? H]
         end.
  repeat match goal with
         | H : is_digit _ = true |- _ =>
             apply digit_not_separator in H as (? & ? & ?)
         | H : Ascii.eqb _ _ = true |- _ => apply Ascii.eqb_eq in H; subst
         end.
  unfold contains_char. cbn [existsb].
  repeat match goal with H : Ascii.eqb _ _ = false |- _ => rewrite H; clear H end.
  destruct Hsep as [<-|[<-|[<-|[]]]]; reflexivity.
Qed.

Lemma detect_dates_shape (current_year : Z) (txt : str)
      (e : EntityDetector.DetectedEntity) :
  In e (EntityDetector.detect_dates current_year txt) ->
  exists sep, In sep date_separators
              /\ has_shape (date_shape sep) (EntityDetector.text e).
Proof.
  unfold EntityDetector.detect_dates. intros H.
  apply in_map_iff in H as ([[[date_str a] b] date_obj] & <- & H).
  cbn [EntityDetector.text]. eapply extract_birth_dates_shape; exact H.
Qed.

Lemma generate_adult_date_spec (sep : ascii) (original : str) (g : rng) :
  In sep date_separators -> has_shape (date_shape sep) original ->
  exists n, (0 <= n <= 20818)%Z
            /\ fst (_generate_adult_date original g)
               = strftime_dmy sep (add_days adult_start n).
Proof.
  intros Hsep Hshape. unfold _generate_adult_date. cbv zeta.
  rewrite (separator_of_date sep original Hsep Hshape).
  change (days_between (1950, 1, 1)%Z (2006, 12, 31)%Z) with 20818%Z.
  unfold randint. cbv beta iota. cbn [fst].
  eexists. split; [|reflexivity].
  pose proof (Nat.mod_upper_bound (draws g (cursor g))
                                  (Z.to_nat 20818 - 0 + 1)) as Hb.
  lia.
Qed.

(** C7.  Every date replacement [generate_replacements] creates for a
    detected date has the shape of the date pattern with the separator
    ([/], [-] or [.]) of the original, and is a date of the calendar from
    1950-01-01 to 2006-12-31 inclusive. *)
Theorem date_replacements_keep_separator_and_range
        (nlp : EntityDetector.pipeline) (current_year : Z) (txt : str)
        (f : Faker) (g : rng) (original replacement : str) :
  In (original, replacement)
     (dates (mapping (generate_replacements
                        (EntityDetector.detect_all nlp current_year txt)
                        (init f g)))) ->
  exists sep d,
    In sep date_separators
    /\ has_shape (date_shape sep) original
    /\ has_shape (date_shape sep) replacement
    /\ strptime_dmy sep replacement = Some d
    /\ date_leb adult_start d = true /\ date_leb d adult_end = true.
Proof.
  intros H. unfold generate_replacements in H.
  destruct (fill (fun _ => faker_name) _ _ _) as [ps f1].
  destruct (fill (fun _ => generate_valid_cpf) _ _ _) as [cs g1].
  destruct (fill (fun _ => generate_valid_rg) _ _ _) as [rs g2].
  destruct (fill _generate_adult_date _ _ _) as [ds g3] eqn:Ed.
  cbn [mapping dates] in H.
  assert (Hin : In (original, replacement) (fst (fill _generate_adult_date
            (EntityDetector.dates
               (EntityDetector.detect_all nlp current_year txt))
            (dates (mapping (init f g))) g2)))
    by (rewrite Ed; exact H).
  apply fill_In in Hin as [[]|(e & g' & He & -> & ->)].
  cbn [EntityDetector.detect_all EntityDetector.dates] in He.
  apply detect_dates_shape in He as (sep & Hsep & Hshape).
  destruct (generate_adult_date_spec sep _ g' Hsep Hshape) as (n & Hn & ->).
  apply adult_day, adult_date_ok_elim in Hn as (Hv & Hlo & Hhi & Hy).
  destruct (strftime_dmy_shape sep _ Hv Hy) as [Hs Hp].
  exists sep, (add_days adult_start n). auto 7.
Qed.

Lemma date_replacements_keep_separator_and_range_witness :
  exists sep d,
    In sep date_separators
    /\ has_shape (date_shape sep) (lit "15/03/1990")
    /\ has_shape (date_shape sep) (lit "11/01/1980")
    /\ strptime_dmy sep (lit "11/01/1980") = Some d
    /\ date_leb adult_start d = true /\ date_leb d adult_end = true.
Proof.
  apply (date_replacements_keep_separator_and_range
           no_persons 2026 (lit "15/03/1990") (constant_faker (lit "Ana Lima"))
           (constant_rng (Z.to_nat 10967))).
  vm_compute. left. reflexivity.
Defined.

(** ** [extract_cpfs] *)

Lemma finditer_from_sorted (r : regex) (s : str) (pos skip : nat) :
  StronglySorted (fun x y : span => span_start x < span_start y)
                 (finditer_from r pos skip s).
Proof.
  revert pos skip; induction s as [|c s IH]; intros pos skip;
    cbn [finditer_from]; [constructor|].
  destruct skip as [|k]; [|apply IH].
  destruct (match_here r (c :: s)) as [[|n]|]; try apply IH.
  constructor; [apply IH|].
  apply Forall_forall. intros [[m a] b] Hm.
  apply finditer_from_In in Hm as (Ha & _). cbn. lia.
Qed.

Lemma StronglySorted_filter {A} (R : A -> A -> Prop) (f : A -> bool) (l : list A) :
  StronglySorted R l -> StronglySorted R (filter f l).
Proof.
  induction 1 as [|x l Hs IH Hx]; cbn [filter]; [constructor|].
  destruct (f x); [|exact IH]. constructor; [exact IH|].
  apply Forall_forall. intros y Hy. apply filter_In in Hy as [Hy _].
  eapply Forall_forall in Hx; eauto.
Qed.

Lemma StronglySorted_app {A} (R : A -> A -> Prop) (l1 l2 : list A) :
  StronglySorted R l1 -> StronglySorted R l2 ->
  (forall x y, In x l1 -> In y l2 -> R x y) ->
  StronglySorted R (l1 ++ l2).
Proof.
  induction 1 as [|x l Hs IH Hx]; intros H2 H12; cbn [app]; [exact H2|].
  constructor.
  - apply IH; [exact H2|]. intros a b Ha Hb. apply H12; [now right|exact Hb].
  - apply Forall_app. split; [exact Hx|].
    apply Forall_forall. intros y Hy. apply H12; [now left|exact Hy].
Qed.

Lemma cpf_candidates_eq (txt : str) :
  cpf_candidates txt
  = filter (fun m => validate_cpf (fst (fst m)))
           (finditer (nth 0 cpf_patterns []) txt)
    ++ filter (fun m => validate_cpf (fst (fst m)))
              (finditer (nth 1 cpf_patterns []) txt).
Proof.
  unfold cpf_candidates, scan_patterns, cpf_patterns.
  cbn [flat_map nth]. now rewrite app_nil_r.
Qed.

(** What a candidate is: a piece of the text, at its offsets, that one of
    the two patterns matches and [validate_cpf] accepts. *)
Lemma cpf_candidate_spec (txt : str) (m : span) :
  In m (cpf_candidates txt) ->
  validate_cpf (value m) = true
  /\ value m = firstn (length (value m)) (skipn (span_start m) txt)
  /\ snd m = span_start m + length (value m)
  /\ exists r, In r cpf_patterns /\ In m (finditer r txt).
Proof.
  unfold cpf_candidates, scan_patterns. intros H.
  apply in_flat_map in H as (r & Hr & H).
  apply filter_In in H as [H Hv]. destruct m as [[v a] b].
  pose proof H as H'. apply finditer_In in H' as (Hb & _ & Hm & _).
  cbn [value span_start fst snd] in *. repeat split; try assumption.
  exists r. now split.
Qed.

Lemma sorted_same_kind (b : bool) (l : list span) :
  (forall x, In x l -> punctuated x = b) ->
  StronglySorted (fun x y : span => span_start x < span_start y) l ->
  StronglySorted scan_before l.
Proof.
  intros Hb Hs. induction Hs as [|x l Hs IH Hx]; constructor.
  - apply IH. intros y Hy. apply Hb. now right.
  - apply Forall_forall. intros y Hy. right. split.
    + rewrite (Hb x), (Hb y); [reflexivity|now right|now left].
    + eapply Forall_forall in Hx; eauto.
Qed.

Lemma valid_matches_kind (txt : str) (r : shape) (m : span) :
  In m (filter (fun m => validate_cpf (fst (fst m))) (finditer [r] txt)) ->
  punctuated m = (length r =? 14).
Proof.
  destruct m as [[v a] b]. intros H. apply filter_In in H as [H _].
  apply finditer_In in H as (_ & _ & _ & p & [<-|[]] & _ & Hl).
  unfold punctuated, value. cbn [fst]. now rewrite Hl.
Qed.

Lemma cpf_candidates_sorted (txt : str) :
  StronglySorted scan_before (cpf_candidates txt).
Proof.
  rewrite cpf_candidates_eq. cbn [cpf_patterns nth].
  apply StronglySorted_app.
  - apply (sorted_same_kind true).
    + intros x Hx. now rewrite (valid_matches_kind _ _ _ Hx).
    + apply StronglySorted_filter, finditer_from_sorted.
  - apply (sorted_same_kind false).
    + intros x Hx. now rewrite (valid_matches_kind _ _ _ Hx).
    + apply StronglySorted_filter, finditer_from_sorted.
  - intros x y Hx Hy. left.
    now rewrite (valid_matches_kind _ _ _ Hx), (valid_matches_kind _ _ _ Hy).
Qed.

Lemma seen_iff (k : str) (seen : list str) :
  existsb (str_eqb k) seen = true <-> In k seen.
Proof.
  rewrite existsb_exists. split.
  - intros (x & Hx & E). apply str_eqb_eq in E. now subst.
  - intros H. exists k. split; [exact H|apply str_eqb_refl].
Qed.

(** The second loop keeps, for each value not yet seen, the first element
    of the list that carries it. *)
Lemma unique_by_digits_spec (R : span -> span -> Prop) (l : list span) :
  StronglySorted R l ->
  forall seen,
    let out := unique_by_digits seen l in
    NoDup (map normalized out)
    /\ (forall e, In e out ->
          In e l /\ ~ In (normalized e) seen
          /\ forall m, In m l -> normalized m = normalized e -> m = e \/ R e m)
    /\ (forall m, In m l ->
          In (normalized m) seen
          \/ exists e, In e out /\ normalized e = normalized m).
Proof.
  induction 1 as [|x l Hs IH Hx]; intros seen; cbn zeta.
  - cbn. split; [constructor|]. split; intros ? [].
  - destruct x as [[cpf a] b]. cbn [unique_by_digits].
    destruct (existsb (str_eqb (only_digits cpf)) seen) eqn:E.
    + apply seen_iff in E. destruct (IH seen) as (Hn & He & Hc).
      split; [exact Hn|]. split.
      * intros e Hin. destruct (He e Hin) as (Hl & Hns & Hf).
        split; [now right|]. split; [exact Hns|].
        intros m [<-|Hm] Hnm; [|now apply Hf].
        exfalso. apply Hns. rewrite <- Hnm. exact E.
      * intros m [<-|Hm]; [now left|now apply Hc].
    + assert (Hnot : ~ In (only_digits cpf) seen).
      { intros Hin. apply seen_iff in Hin. congruence. }
      destruct (IH (only_digits cpf :: seen)) as (Hn & He & Hc).
      split; [|split].
      * cbn [map]. constructor; [|exact Hn].
        intros Hin. apply in_map_iff in Hin as (e & Hne & Hin).
        destruct (He e Hin) as (_ & Hns & _). apply Hns. left.
        symmetry. exact Hne.
      * intros e [<-|Hin].
        -- split; [now left|]. split; [exact Hnot|].
           intros m [<-|Hm] _; [now left|]. right.
           eapply Forall_forall in Hx; eauto.
        -- destruct (He e Hin) as (Hl & Hns & Hf).
           split; [now right|]. split; [intros Hs'; apply Hns; now right|].
           intros m [<-|Hm] Hnm; [|now apply Hf].
           exfalso. apply Hns. left. exact Hnm.
      * intros m [<-|Hm].
        -- right. exists (cpf, a, b). split; [now left|reflexivity].
        -- destruct (Hc m Hm) as [[Hd|Hd]|(e & Hin & Hne)].
           ++ right. exists (cpf, a, b). split; [now left|exact Hd].
           ++ now left.
           ++ right. exists e. split; [now right|exact Hne].
Qed.

(** C8, as the code has it.  [extract_cpfs] returns only matches that
    pass [validate_cpf], no two of them with the same digits, one for
    every valid match; and the entry kept for a value is the first match
    in scan order: every other match with these digits comes later in the
    text and is of the same pattern, or the entry is punctuated and the
    other match is bare. *)
Theorem extract_cpfs_keeps_first_in_scan_order (txt : str) :
  (forall e, In e (extract_cpfs txt) ->
     In e (cpf_candidates txt) /\ validate_cpf (value e) = true
     /\ value e = firstn (length (value e)) (skipn (span_start e) txt))
  /\ NoDup (map normalized (extract_cpfs txt))
  /\ (forall m, In m (cpf_candidates txt) ->
        exists e, In e (extract_cpfs txt) /\ normalized e = normalized m)
  /\ (forall e m, In e (extract_cpfs txt) -> In m (cpf_candidates txt) ->
        normalized m = normalized e -> m = e \/ scan_before e m).
Proof.
  destruct (unique_by_digits_spec scan_before _ (cpf_candidates_sorted txt) [])
    as (Hn & He & Hc).
  fold (cpf_candidates txt) in *. fold (extract_cpfs txt) in *.
  unfold extract_cpfs. fold (cpf_candidates txt).
  split; [|split; [exact Hn|split]].
  - intros e Hin. destruct (He e Hin) as (Hl & _).
    split; [exact Hl|]. apply cpf_candidate_spec in Hl as (Hv & Hm & _).
    now split.
  - intros m Hm. destruct (Hc m Hm) as [[]|H]. exact H.
  - intros e m Hin Hm Hnm. destruct (He e Hin) as (_ & _ & Hf). now apply Hf.
Qed.

(** The text with a bare CPF before its punctuated form: the punctuated
    match at offset 12 is kept although the same value occurs at offset 0. *)
Lemma extract_cpfs_not_first_in_text :
  extract_cpfs (lit "52998224725 529.982.247-25")
  = [(lit "529.982.247-25", 12, 26)]
  /\ In (lit "52998224725", 0, 11)
        (cpf_candidates (lit "52998224725 529.982.247-25"))
  /\ ~ keeps_first_in_text (lit "52998224725 529.982.247-25").
Proof.
  split; [vm_compute; reflexivity|]. split; [vm_compute; auto|].
  intros H.
  specialize (H (lit "529.982.247-25", 12, 26) (lit "52998224725", 0, 11)).
  assert (C : 12 <= 0); [|lia].
  apply H; vm_compute; auto.
Qed.

(** ** The mapping of an instance *)

Lemma dict_set_fresh (k v : str) (d : dict) :
  dict_contains k d = false -> dict_set k v d = d ++ [(k, v)].
Proof.
  unfold dict_contains. induction d as [|[k' v'] d IH]; cbn; [reflexivity|].
  intros H. apply orb_false_iff in H as [Hk H]. rewrite Hk.
  now rewrite IH.
Qed.

Lemma extends_refl (d : dict) : extends d d.
Proof. exists []. now rewrite app_nil_r. Qed.

Lemma extends_trans (a b c : dict) : extends a b -> extends b c -> extends a c.
Proof. intros [x ->] [y ->]. exists (x ++ y). now rewrite app_assoc. Qed.

Lemma fill_extends {S} (make : str -> S -> str * S)
      (entities : list EntityDetector.DetectedEntity) (d : dict) (s : S) :
  extends d (fst (fill make entities d s)).
Proof.
  unfold fill. revert d s.
  induction entities as [|e entities IH]; intros d s; cbn [fold_left fst].
  - apply extends_refl.
  - destruct (dict_contains (EntityDetector.text e) d) eqn:E; [apply IH|].
    destruct (make (EntityDetector.text e) s) as [value s1].
    eapply extends_trans; [|apply IH].
    rewrite dict_set_fresh by exact E. now eexists.
Qed.

(** C5, as the code has it.  A new instance has an empty mapping; a call
    of [anonymize] returns the mapping of the instance, and that mapping
    is the one from before the call with the new entries added: what
    earlier documents put there stays. *)
Theorem anonymize_accumulates (nlp : EntityDetector.pipeline)
        (current_year : Z) (txt : str) (st : state) :
  (forall f g, mapping (init f g) = empty_mapping)
  /\ snd (fst (anonymize nlp current_year txt st))
     = mapping (snd (anonymize nlp current_year txt st))
  /\ extends (persons (mapping st))
             (persons (mapping (snd (anonymize nlp current_year txt st))))
  /\ extends (cpfs (mapping st))
             (cpfs (mapping (snd (anonymize nlp current_year txt st))))
  /\ extends (rgs (mapping st))
             (rgs (mapping (snd (anonymize nlp current_year txt st))))
  /\ extends (dates (mapping st))
             (dates (mapping (snd (anonymize nlp current_year txt st)))).
Proof.
  split; [reflexivity|]. split; [reflexivity|].
  unfold anonymize. cbn [snd]. unfold generate_replacements.
  pose proof (fill_extends (fun _ => faker_name)
    (EntityDetector.persons (EntityDetector.detect_all nlp current_year txt))
    (persons (mapping st)) (faker st)) as Hp.
  destruct (fill (fun _ => faker_name) _ _ _) as [ps f1].
  pose proof (fill_extends (fun _ => generate_valid_cpf)
    (EntityDetector.cpfs (EntityDetector.detect_all nlp current_year txt))
    (cpfs (mapping st)) (random st)) as Hc.
  destruct (fill (fun _ => generate_valid_cpf) _ _ _) as [cs g1].
  pose proof (fill_extends (fun _ => generate_valid_rg)
    (EntityDetector.rgs (EntityDetector.detect_all nlp current_year txt))
    (rgs (mapping st)) g1) as Hr.
  destruct (fill (fun _ => generate_valid_rg) _ _ _) as [rs g2].
  pose proof (fill_extends _generate_adult_date
    (EntityDetector.dates (EntityDetector.detect_all nlp current_year txt))
    (dates (mapping st)) g2) as Hd.
  destruct (fill _generate_adult_date _ _ _) as [ds g3].
  cbn [mapping persons cpfs rgs dates fst] in *. auto.
Qed.

(** After the document [15/03/1990], the document [sem dados] gets a
    mapping with the date of the first one; on an empty mapping it gets
    the empty mapping. *)
Lemma anonymize_does_not_start_empty :
  ~ starts_from_empty_mapping no_persons 2026.
Proof.
  intros H.
  specialize (H (snd (anonymize no_persons 2026 (lit "15/03/1990")
                                (init (constant_faker (lit "Ana Lima"))
                                      (constant_rng 7))))
                (lit "sem dados")
                (reachable_anonymize _ _ _ _ (reachable_init _ _ _ _))).
  vm_compute in H. discriminate H.
Qed.

(** ** The scan of [str.replace] and [re.sub] *)

Section Scan.

Variable matches : str -> str -> bool.
Variables old new : str.
Hypothesis old_nonempty : old <> [].
Hypothesis matches_length :
  forall s, matches old s = true -> length old <= length s.

Let scan := scan_replace matches old (fun _ => new).

Lemma scan_skip (k : nat) (s : str) : scan k s = scan 0 (skipn k s).
Proof.
  revert k; induction s as [|c s IH]; intros [|k]; try reflexivity.
  cbn [skipn]. unfold scan in *. cbn [scan_replace]. apply IH.
Qed.

Lemma scan_match (s : str) :
  matches old s = true ->
  scan 0 s = new ++ scan 0 (skipn (length old) s).
Proof.
  intros H. pose proof (matches_length s H) as Hl.
  destruct s as [|c s].
  - destruct old; [contradiction|cbn in Hl; lia].
  - unfold scan. cbn [scan_replace]. rewrite H. f_equal.
    fold scan. rewrite scan_skip. f_equal.
    destruct old as [|x o]; [contradiction|].
    cbn [length]. replace (S (length o) - 1) with (length o) by lia.
    reflexivity.
Qed.

Lemma scan_no_match (c : ascii) (s : str) :
  matches old (c :: s) = false -> scan 0 (c :: s) = c :: scan 0 s.
Proof. intros H. unfold scan. cbn [scan_replace]. now rewrite H. Qed.


Lemma substituted_cons (c : ascii) (s out : str) :
  matches old (c :: s) = false ->
  substituted matches old new s out ->
  substituted matches old new (c :: s) (c :: out).
Proof.
  intros Hc H. destruct H as [s Hn|pre m rest out Hpre Hm Hl Hr].
  - apply substituted_none. intros [|k] Hk; [exact Hc|].
    apply Hn. cbn in Hk; lia.
  - apply (substituted_occ matches old new (c :: pre) m rest out);
      try assumption.
    intros [|k] Hk; [exact Hc|]. apply Hpre. cbn in Hk; lia.
Qed.

Lemma scan_substituted (s : str) : substituted matches old new s (scan 0 s).
Proof.
  remember (length s) as n eqn:En. revert s En.
  induction n as [n IH] using lt_wf_ind. intros s ->.
  destruct s as [|c s].
  - apply substituted_none. intros k Hk. cbn in Hk; lia.
  - destruct (matches old (c :: s)) eqn:E.
    + rewrite (scan_match _ E).
      pose proof (matches_length _ E) as Hl.
      rewrite <- (firstn_skipn (length old) (c :: s)) at 1.
      apply (substituted_occ matches old new []
               (firstn (length old) (c :: s))
               (skipn (length old) (c :: s))).
      * intros k Hk. cbn in Hk; lia.
      * now rewrite firstn_skipn.
      * now apply firstn_length_le.
      * eapply IH; [|reflexivity].
        rewrite length_skipn.
        destruct old; [contradiction|cbn in *; lia].
    + rewrite (scan_no_match _ _ E).
      apply substituted_cons; [exact E|].
      eapply IH; [|reflexivity]. cbn; lia.
Qed.

End Scan.

Lemma starts_with_length (p s : str) :
  starts_with p s = true -> length p <= length s.
Proof.
  revert s; induction p as [|x p IH]; intros [|y s]; cbn; try lia;
    try discriminate.
  intros H. apply andb_true_iff in H as [_ H]. apply IH in H. lia.
Qed.

Lemma starts_with_ci_length (p s : str) :
  starts_with_ci p s = true -> length p <= length s.
Proof.
  revert s; induction p as [|x p IH]; intros [|y s]; cbn; try lia;
    try discriminate.
  intros H. apply andb_true_iff in H as [_ H]. apply IH in H. lia.
Qed.

Lemma replace_substituted (old new s : str) :
  old <> [] -> substituted starts_with old new s (replace old new s).
Proof.
  intros H. destruct old as [|x o]; [contradiction|].
  apply scan_substituted; [exact H|apply starts_with_length].
Qed.

Lemma re_sub_ignorecase_substituted (old new s : str) :
  old <> [] ->
  substituted starts_with_ci old new s (re_sub_ignorecase old new s).
Proof.
  intros H. destruct old as [|x o]; [contradiction|].
  apply scan_substituted; [exact H|apply starts_with_ci_length].
Qed.

(** ** The order of the person substitutions *)

Lemma insert_by_len_perm (x : str * str) (l : dict) :
  Permutation (x :: l) (insert_by_len x l).
Proof.
  induction l as [|y l IH]; cbn [insert_by_len]; [reflexivity|].
  destruct (length (fst x) <? length (fst y)); [|reflexivity].
  eapply perm_trans; [apply perm_swap|]. now constructor.
Qed.

Lemma sorted_by_len_perm (d : dict) : Permutation d (sorted_by_len d).
Proof.
  induction d as [|x d IH]; [constructor|].
  change (sorted_by_len (x :: d)) with (insert_by_len x (sorted_by_len d)).
  eapply perm_trans; [|apply insert_by_len_perm]. now constructor.
Qed.

Lemma insert_by_len_sorted (x : str * str) (l : dict) :
  StronglySorted longer_first l -> StronglySorted longer_first (insert_by_len x l).
Proof.
  induction 1 as [|y l Hs IH Hy]; cbn [insert_by_len].
  - repeat constructor.
  - destruct (length (fst x) <? length (fst y)) eqn:E.
    + apply Nat.ltb_lt in E. constructor; [exact IH|].
      apply Forall_forall. intros z Hz.
      apply (Permutation_in _ (Permutation_sym (insert_by_len_perm x l))) in Hz.
      destruct Hz as [<-|Hz]; [unfold longer_first; lia|].
      eapply Forall_forall in Hy; eauto.
    + apply Nat.ltb_ge in E. constructor; [now constructor|].
      constructor; [exact E|].
      eapply Forall_impl; [|exact Hy]. unfold longer_first. intros; lia.
Qed.

Lemma sorted_by_len_sorted (d : dict) :
  StronglySorted longer_first (sorted_by_len d).
Proof.
  induction d as [|x d IH]; [constructor|].
  change (sorted_by_len (x :: d)) with (insert_by_len x (sorted_by_len d)).
  now apply insert_by_len_sorted.
Qed.

(** C4.  [substitute] works in a fixed order: the persons, longest
    original first, each replaced at every occurrence whatever its case;
    then CPFs, RGs and dates, each replaced at every exact occurrence.  With
    the persons [Maria Silva] and [Maria], in either order of detection,
    [Maria Silva] is substituted before [Maria], so no occurrence of it is
    left for [Maria] to cut into. *)
Theorem substitute_order (m : Mapping) (txt : str) :
  let exact := fun t (kv : str * str) => replace (fst kv) (snd kv) t in
  let anycase := fun t (kv : str * str) => re_sub_ignorecase (fst kv) (snd kv) t in
  (exists ordered,
      Permutation (persons m) ordered
      /\ StronglySorted longer_first ordered
      /\ substitute m txt
         = fold_left exact (dates m)
             (fold_left exact (rgs m)
                (fold_left exact (cpfs m) (fold_left anycase ordered txt))))
  /\ (forall old new s, old <> [] ->
        substituted starts_with_ci old new s (re_sub_ignorecase old new s)
        /\ substituted starts_with old new s (replace old new s))
  /\ (forall x y s,
        let first := re_sub_ignorecase (lit "Maria Silva") x s in
        substitute (persons_only [(lit "Maria", y); (lit "Maria Silva", x)]) s
        = re_sub_ignorecase (lit "Maria") y first
        /\ substitute (persons_only [(lit "Maria Silva", x); (lit "Maria", y)]) s
           = re_sub_ignorecase (lit "Maria") y first
        /\ substituted starts_with_ci (lit "Maria Silva") x s first)
  /\ substitute (persons_only [(lit "Maria", lit "Y"); (lit "Maria Silva", lit "X")])
                maria_text
     = lit "X e Y foram ao m" ++ [chr 233] ++ lit "dico".
Proof.
  cbv zeta. split; [|split; [|split]].
  - exists (sorted_by_len (persons m)).
    split; [apply sorted_by_len_perm|]. split; [apply sorted_by_len_sorted|].
    reflexivity.
  - intros old new s H. split.
    + now apply re_sub_ignorecase_substituted.
    + now apply replace_substituted.
  - intros x y s. split; [reflexivity|]. split; [reflexivity|].
    apply re_sub_ignorecase_substituted. discriminate.
  - vm_compute. reflexivity.
Qed.

Import Crypto.

(** ** The toy library meets the contracts *)

Lemma bytes_prefix_app (k d : bytes) : Toy.bytes_prefix k (k ++ d) = true.
Proof.
  induction k as [|x k IH]; [reflexivity|]. cbn.
  rewrite IH, andb_true_r. now apply Byte.byte_dec_lb.
Qed.

Lemma skipn_app_exact {A} (k d : list A) : skipn (length k) (k ++ d) = d.
Proof. induction k; [reflexivity|assumption]. Qed.

Lemma toy_decode_char (c : ascii) (b : bytes) :
  Toy.decode (utf8_encode [c] ++ b) = option_map (cons c) (Toy.decode b).
Proof.
  destruct c as [[] [] [] [] [] [] [] []]; reflexivity.
Qed.

Lemma utf8_encode_cons (c : ascii) (s : str) :
  utf8_encode (c :: s) = utf8_encode [c] ++ utf8_encode s.
Proof. unfold utf8_encode. cbn [flat_map]. now rewrite app_nil_r. Qed.

Lemma toy_decode_encode (s : str) : Toy.decode (utf8_encode s) = Some s.
Proof.
  induction s as [|c s IH]; [reflexivity|].
  now rewrite utf8_encode_cons, toy_decode_char, IH.
Qed.

Lemma dec_enc_nat (n : nat) (rest : str) :
  Toy.dec_nat (Toy.enc_nat n ++ rest) = Some (n, rest).
Proof.
  induction n as [|n IH]; [reflexivity|].
  unfold Toy.enc_nat in *. cbn [repeat app Toy.dec_nat].
  change (Ascii.eqb "1" "0") with false. change (Ascii.eqb "1" "1") with true.
  cbv iota. now rewrite IH.
Qed.

Lemma dec_enc_str (s rest : str) :
  Toy.dec_str (Toy.enc_str s ++ rest) = Some (s, rest).
Proof.
  unfold Toy.dec_str, Toy.enc_str. rewrite <- app_assoc, dec_enc_nat.
  rewrite length_app.
  replace (length s <=? length s + length rest) with true
    by (symmetry; apply Nat.leb_le; lia).
  now rewrite firstn_app, Nat.sub_diag, firstn_all, app_nil_r, skipn_app_exact.
Qed.

Lemma dec_enc_entries (d : dict) (rest : str) :
  Toy.dec_entries (length d)
    (flat_map (fun kv => Toy.enc_str (fst kv)
                         ++ Toy.enc_str (Toy.str_of_value (snd kv)))
              (map (fun kv => (fst kv, PyStr (snd kv))) d) ++ rest)
  = Some (map (fun kv => (fst kv, PyStr (snd kv))) d, rest).
Proof.
  induction d as [|[k v] d IH]; [reflexivity|].
  cbn [length map flat_map fst snd Toy.str_of_value Toy.dec_entries].
  rewrite <- !app_assoc, dec_enc_str, dec_enc_str, IH. reflexivity.
Qed.

Lemma dec_enc_dict (d : dict) (rest : str) :
  Toy.dec_dict (Toy.enc_dict (map (fun kv => (fst kv, PyStr (snd kv))) d) ++ rest)
  = Some (map (fun kv => (fst kv, PyStr (snd kv))) d, rest).
Proof.
  unfold Toy.dec_dict, Toy.enc_dict.
  now rewrite <- app_assoc, dec_enc_nat, length_map, dec_enc_entries.
Qed.

Lemma toy_loads_dumps (m : Mapping) :
  Toy.loads (Toy.dumps (pymapping m)) = Some (pymapping m).
Proof.
  unfold pymapping, items, pydict. cbn [map fst snd Toy.dumps].
  unfold Toy.loads.
  rewrite dec_enc_dict, dec_enc_dict, dec_enc_dict.
  rewrite <- (app_nil_r (Toy.enc_dict _)), dec_enc_dict. reflexivity.
Qed.

Lemma toy_contracts : contracts Toy.lib.
Proof.
  constructor.
  - intros key [] data. cbn. unfold Toy.decrypt, Toy.encrypt.
    now rewrite bytes_prefix_app, skipn_app_exact.
  - reflexivity.
  - apply toy_decode_encode.
  - intros m _. apply toy_loads_dumps.
Qed.

Lemma toy_mapping_ok : mapping_ok Toy.mapping.
Proof.
  repeat split; unfold dict_ok; cbn;
    repeat first [apply NoDup_nil
                 | apply NoDup_cons; [cbn; intuition discriminate|]].
Qed.

(** ** [encrypt_mapping] and [decrypt_mapping] *)

Lemma os_urandom_length (pool : nat -> byte) (n : nat) :
  length (os_urandom pool n) = n.
Proof. unfold os_urandom. now rewrite length_map, length_seq. Qed.

Lemma firstn_app_exact {A} (k d : list A) : firstn (length k) (k ++ d) = k.
Proof. induction k; [reflexivity|cbn; now f_equal]. Qed.

(** The blob is cut where it was joined. *)
Lemma blob_split (pool : nat -> byte) (token : bytes) :
  firstn 16 (os_urandom pool 16 ++ token) = os_urandom pool 16
  /\ skipn 16 (os_urandom pool 16 ++ token) = token.
Proof.
  pose proof (os_urandom_length pool 16) as H.
  split.
  - rewrite <- H at 1. apply firstn_app_exact.
  - rewrite <- H at 1. apply skipn_app_exact.
Qed.

Section Contracts.

Variable L : library.
Hypothesis HL : contracts L.

(** What [decrypt_mapping] does with a blob of [encrypt_mapping] once the
    key is the one it was encrypted with. *)
Lemma decrypt_with_key (m : Mapping) (password1 password2 : str)
      (pool : nat -> byte) (fr : fresh L) :
  mapping_ok m ->
  _derive_key L password2 (os_urandom pool 16)
  = _derive_key L password1 (os_urandom pool 16) ->
  decrypt_mapping L (encrypt_mapping L (pymapping m) password1 pool fr)
                  password2
  = inr (pymapping m).
Proof.
  intros Hm Hk. unfold decrypt_mapping, encrypt_mapping.
  destruct (blob_split pool
              (fernet_encrypt L (_derive_key L password1 (os_urandom pool 16))
                 fr (utf8_encode (json_dumps L (pymapping m))))) as [-> ->].
  rewrite Hk, (fernet_roundtrip L HL), (utf8_roundtrip L HL).
  now rewrite (json_roundtrip L HL).
Qed.

(** C3.  Decrypting what [encrypt_mapping] made of a mapping, with the
    same password, gives the mapping back: for every mapping, every
    password (empty or not), every salt and every IV. *)
Theorem decrypt_encrypt_roundtrip (m : Mapping) (password : str)
        (pool : nat -> byte) (fr : fresh L) :
  mapping_ok m ->
  decrypt_mapping L (encrypt_mapping L (pymapping m) password pool fr)
                  password
  = inr (pymapping m).
Proof. intros Hm. now apply decrypt_with_key. Qed.

End Contracts.

Lemma decrypt_encrypt_roundtrip_witness :
  decrypt_mapping Toy.lib
    (encrypt_mapping Toy.lib (pymapping Toy.mapping) (lit "pw") Toy.pool tt)
    (lit "pw")
  = inr (pymapping Toy.mapping).
Proof.
  apply (decrypt_encrypt_roundtrip Toy.lib toy_contracts Toy.mapping
           (lit "pw") Toy.pool tt toy_mapping_ok).
Defined.

(** ** Passwords and keys *)



Section Keys.

Variable L : library.





Hypothesis HL : contracts L.




End Keys.



(** ** Blobs that do not authenticate *)

Section Blobs.

Variable L : library.
Hypothesis HL : contracts L.

(** Every outcome of [decrypt_mapping]: the token is refused, or it
    authenticates and its payload is not UTF-8, is UTF-8 but not JSON, or
    is JSON and is returned. *)
Lemma decrypt_mapping_outcomes (data : bytes) (password : str) :
  let key := _derive_key L password (firstn 16 data) in
  match fernet_decrypt L key (skipn 16 data) with
  | None => decrypt_mapping L data password = inl AuthenticationError
  | Some payload =>
      match utf8_decode L payload with
      | None => decrypt_mapping L data password = inl UnicodeDecodeError
      | Some s =>
          match json_loads L s with
          | None => decrypt_mapping L data password = inl CorruptDataError
          | Some v => decrypt_mapping L data password = inr v
          end
      end
  end.
Proof.
  cbv zeta. unfold decrypt_mapping.
  destruct (fernet_decrypt L _ _) as [payload|]; [|reflexivity].
  destruct (utf8_decode L payload) as [s|]; [|reflexivity].
  destruct (json_loads L s); reflexivity.
Qed.


End Blobs.


Import Tokens.

(** ** The round trip of [anonymize] and [reverse] *)








Lemma entry_eqb_refl (a : entry) : entry_eqb a a = true.
Proof.
  unfold entry_eqb. now rewrite Bool.eqb_reflx, !str_eqb_refl.
Qed.















(** A replacement that already stands in the text breaks the round trip:
    with the one detected date [15/03/1990] replaced by [11/01/1980], the
    text [15/03/1990 11/11/1111/01/1980] does not come back. *)
Lemma reverse_anonymize_not_identity :
  let txt := lit "15/03/1990 11/11/1111/01/1980" in
  let run := anonymize no_persons 2026 txt
               (init (constant_faker (lit "Ana Lima"))
                     (constant_rng (Z.to_nat 10967))) in
  snd (fst run)
  = {| persons := []; cpfs := []; rgs := [];
       dates := [(lit "15/03/1990", lit "11/01/1980")] |}
  /\ fst (fst run) = lit "11/01/1980 11/11/1111/01/1980"
  /\ reverse (fst (fst run)) (items (snd (fst run)))
     = lit "15/03/1990 11/11/1115/03/1990"
  /\ reverse (fst (fst run)) (items (snd (fst run))) <> txt.
Proof.
  cbv zeta. repeat split; try (vm_compute; reflexivity).
  vm_compute. discriminate.
Qed.

(** * Further properties of the validators *)

(** ** [validate_cpf] *)

Lemma validate_cpf_spec (s : str) :
  validate_cpf s = true <->
  length (only_digits s) = 11
  /\ only_digits s <> repeat (nth 0 (only_digits s) "000"%char) 11
  /\ int_of_char (nth 9 (only_digits s) "000"%char) = check_digit 10 (only_digits s)
  /\ int_of_char (nth 10 (only_digits s) "000"%char) = check_digit 11 (only_digits s).
Proof.
  change (validate_cpf s)
    with (let cpf := only_digits s in
          if negb (length cpf =? 11) then false
          else if str_eqb cpf (repeat (nth 0 cpf "000"%char) 11) then false
          else if negb (int_of_char (nth 9 cpf "000"%char) =? check_digit 10 cpf)
               then false
               else int_of_char (nth 10 cpf "000"%char) =? check_digit 11 cpf).
  cbv zeta.
  generalize (check_digit 10 (only_digits s)), (check_digit 11 (only_digits s)).
  generalize (only_digits s). intros ds c1 c2.
  destruct (length ds =? 11) eqn:El; cbn [negb].
  - apply Nat.eqb_eq in El.
    destruct (str_eqb ds _) eqn:Ee.
    + apply str_eqb_eq in Ee. split; [discriminate|]. intros (_ & H & _). contradiction.
    + apply str_eqb_neq in Ee.
      match goal with |- context [?x =? c1] => destruct (x =? c1) eqn:E1 end;
        cbn [negb].
      * apply Nat.eqb_eq in E1. rewrite Nat.eqb_eq. tauto.
      * apply Nat.eqb_neq in E1. split; [discriminate|]. tauto.
  - apply Nat.eqb_neq in El. split; [discriminate|]. tauto.
Qed.

Lemma only_digits_are_digits (s : str) :
  Forall (fun c => is_digit c = true) (only_digits s).
Proof.
  apply Forall_forall. intros c H. unfold only_digits in H.
  now apply filter_In in H.
Qed.

Lemma int_of_char_inj (a b : ascii) :
  is_digit a = true -> is_digit b = true ->
  int_of_char a = int_of_char b -> a = b.
Proof.
  unfold is_digit, int_of_char, ord. intros Ha Hb E.
  apply andb_true_iff in Ha as [Ha _]. apply andb_true_iff in Hb as [Hb _].
  apply Nat.leb_le in Ha, Hb.
  rewrite <- (ascii_nat_embedding a), <- (ascii_nat_embedding b).
  f_equal. lia.
Qed.

Lemma nth_firstn_lt {A} (i n : nat) (l : list A) (d : A) :
  i < n -> nth i (firstn n l) d = nth i l d.
Proof.
  revert i n; induction l as [|x l IH]; intros i n H.
  - now rewrite firstn_nil.
  - destruct n as [|n]; [lia|]. destruct i as [|i]; [reflexivity|].
    cbn [firstn nth]. apply IH. lia.
Qed.

Lemma check_digit_prefix (w : nat) (a b : str) :
  firstn (w - 1) a = firstn (w - 1) b -> check_digit w a = check_digit w b.
Proof.
  intros H. unfold check_digit. cbv zeta.
  replace (map (fun i => int_of_char (nth i a "000"%char) * (w - i)) (seq 0 (w - 1)))
    with (map (fun i => int_of_char (nth i b "000"%char) * (w - i)) (seq 0 (w - 1)));
    [reflexivity|].
  apply map_ext_in. intros i Hi. apply in_seq in Hi.
  f_equal. f_equal.
  rewrite <- (nth_firstn_lt i (w - 1) a), <- (nth_firstn_lt i (w - 1) b) by lia.
  now rewrite H.
Qed.

(** X2.  The two check digits are a function of the nine digits before
    them: two strings that [validate_cpf] accepts and whose first nine
    digits agree have the same eleven digits.  So a change of a check
    digit of a valid CPF is always rejected. *)
Theorem validate_cpf_check_digits_determined (s t : str) :
  validate_cpf s = true -> validate_cpf t = true ->
  firstn 9 (only_digits s) = firstn 9 (only_digits t) ->
  only_digits s = only_digits t.
Proof.
  intros Hs Ht H9.
  apply validate_cpf_spec in Hs as (Ls & _ & S1 & S2).
  apply validate_cpf_spec in Ht as (Lt & _ & T1 & T2).
  pose proof (only_digits_are_digits s) as Ds.
  pose proof (only_digits_are_digits t) as Dt.
  revert Ls Lt S1 S2 T1 T2 Ds Dt H9.
  generalize (only_digits s) as a, (only_digits t) as b. intros a b.
  intros Ls Lt S1 S2 T1 T2 Ds Dt H9.
  assert (Da : forall i, i < 11 -> is_digit (nth i a "000"%char) = true)
    by (intros i Hi; apply (proj1 (Forall_forall _ a) Ds); apply nth_In; lia).
  assert (Db : forall i, i < 11 -> is_digit (nth i b "000"%char) = true)
    by (intros i Hi; apply (proj1 (Forall_forall _ b) Dt); apply nth_In; lia).
  clear Ds Dt.
  assert (E9 : nth 9 a "000"%char = nth 9 b "000"%char).
  { apply int_of_char_inj.
    - apply Da. lia.
    - apply Db. lia.
    - rewrite S1, T1. now apply check_digit_prefix. }
  assert (H10 : firstn 10 a = firstn 10 b).
  { do 12 (destruct a as [|? a]; try discriminate Ls).
    do 12 (destruct b as [|? b]; try discriminate Lt).
    cbn [nth] in E9. cbn [firstn] in *. congruence. }
  assert (E10 : nth 10 a "000"%char = nth 10 b "000"%char).
  { apply int_of_char_inj.
    - apply Da. lia.
    - apply Db. lia.
    - rewrite S2, T2. now apply check_digit_prefix. }
  do 12 (destruct a as [|? a]; try discriminate Ls).
  do 12 (destruct b as [|? b]; try discriminate Lt).
  cbn [nth firstn] in *. congruence.
Qed.

Lemma validate_cpf_check_digits_determined_witness :
  only_digits (lit "529.982.247-25") = only_digits (lit "52998224725").
Proof.
  apply (validate_cpf_check_digits_determined
           (lit "529.982.247-25") (lit "52998224725")); reflexivity.
Defined.

(** ** The extractors on what the generators return *)

Ltac digits_known :=
  repeat match goal with
         | H : is_digit ?c = true |- _ => rewrite !H
         end.

Lemma finditer_from_skipped (r : regex) (pos skip : nat) (s : str) :
  length s <= skip -> finditer_from r pos skip s = [].
Proof.
  revert pos skip; induction s as [|c s IH]; intros pos skip H; [reflexivity|].
  cbn [finditer_from]. destruct skip as [|k]; [simpl in H; lia|].
  apply IH. simpl in H. lia.
Qed.

Lemma finditer_whole (r : regex) (s : str) :
  s <> [] -> match_here r s = Some (length s) ->
  finditer r s = [(s, 0, length s)].
Proof.
  intros Hs H. unfold finditer. destruct s as [|c s]; [contradiction|].
  cbn [finditer_from]. rewrite H. cbn [length].
  rewrite finditer_from_skipped by lia.
  change (firstn (S (length s)) (c :: s)) with (c :: firstn (length s) s).
  now rewrite firstn_all.
Qed.

Lemma finditer_from_none (r : regex) (pos : nat) (s : str) :
  (forall k, k < length s -> match_here r (skipn k s) = None) ->
  finditer_from r pos 0 s = [].
Proof.
  revert pos; induction s as [|c s IH]; intros pos H; [reflexivity|].
  cbn [finditer_from].
  pose proof (H 0 ltac:(simpl; lia)) as H0. cbn [skipn] in H0. rewrite H0.
  apply IH. intros k Hk. apply (H (S k)). simpl. lia.
Qed.

Lemma cpf_format_matches (l : str) :
  Forall (fun c => is_digit c = true) l -> length l = 11 ->
  let cpf := firstn 3 l ++ lit "." ++ firstn 3 (skipn 3 l) ++ lit "."
               ++ firstn 3 (skipn 6 l) ++ lit "-" ++ skipn 9 l in
  finditer (nth 0 cpf_patterns []) cpf = [(cpf, 0, 14)]
  /\ finditer (nth 1 cpf_patterns []) cpf = [].
Proof.
  intros H Hl.
  do 12 (destruct l as [|? l]; try discriminate Hl). clear Hl.
  repeat match goal with
         | H : Forall _ (_ :: _) |- _ => apply Forall_cons_iff in H as [? H]
         end.
  clear H.
  cbv zeta. cbn [firstn skipn app lit list_ascii_of_string nth cpf_patterns].
  split.
  - apply finditer_whole; [discriminate|].
    cbn [match_here shape_match digits repeat app cls_match length].
    digits_known. reflexivity.
  - apply finditer_from_none. intros k Hk. cbn [length] in Hk.
    do 14 (destruct k as [|k];
           [cbn [skipn match_here shape_match digits repeat app cls_match length];
            digits_known; reflexivity|]).
    exfalso; lia.
Qed.

Lemma finditer_from_skip (r : regex) (pos skip : nat) (s : str) :
  finditer_from r pos skip s = finditer_from r (pos + skip) 0 (skipn skip s).
Proof.
  revert pos s; induction skip as [|k IH]; intros pos s.
  - now rewrite Nat.add_0_r.
  - destruct s as [|c s]; [reflexivity|].
    cbn [finditer_from skipn]. rewrite IH. f_equal. lia.
Qed.

Lemma finditer_head (r : regex) (s : str) (n : nat) :
  match_here r s = Some (S n) ->
  finditer r s
  = (firstn (S n) s, 0, S n) :: finditer_from r (S n) 0 (skipn (S n) s).
Proof.
  intros H. unfold finditer. destruct s as [|c s].
  - exfalso. induction r as [|p r IH]; [discriminate H|].
    cbn [match_here] in H. destruct p as [|k p]; [discriminate H|].
    cbn [shape_match] in H. now apply IH.
  - cbn [finditer_from]. rewrite H. rewrite finditer_from_skip.
    reflexivity.
Qed.

Lemma generate_valid_cpf_format (g : rng) :
  exists l, Forall (fun c => is_digit c = true) l /\ length l = 11
    /\ fst (generate_valid_cpf g)
       = firstn 3 l ++ lit "." ++ firstn 3 (skipn 3 l) ++ lit "."
           ++ firstn 3 (skipn 6 l) ++ lit "-" ++ skipn 9 l.
Proof.
  unfold generate_valid_cpf. rewrite randints_digits. cbv zeta. cbn [fst].
  match goal with |- context [join_str_of_nat ?l0] =>
    assert (Hl : Forall (fun d => d < 10) l0 /\ length l0 = 11);
    [|revert Hl; generalize l0; intros l [Hb Hl]] end.
  { split.
    - repeat (apply Forall_app; split); try apply next_digits_bound;
        (apply Forall_cons; [apply check_digit_bound|apply Forall_nil]).
    - rewrite !length_app, next_digits_length. reflexivity. }
  exists (map digit_char l). rewrite (join_digits _ Hb).
  split; [now apply digit_chars_are_digits|].
  split; [now rewrite length_map|reflexivity].
Qed.

(** X3.  [extract_cpfs] on a string [generate_valid_cpf] returns finds
    the whole string, once, at offsets 0 to 14, unless the nine random
    digits are all equal: then it finds nothing. *)
Theorem extract_cpfs_of_generated (g : rng) :
  extract_cpfs (fst (generate_valid_cpf g))
  = if all_equal (next_digits 9 g) then []
    else [(fst (generate_valid_cpf g), 0, 14)].
Proof.
  pose proof (generate_valid_cpf_valid_iff g) as Hv.
  destruct (generate_valid_cpf_format g) as (l & Hd & Hl & E).
  destruct (cpf_format_matches l Hd Hl) as [H1 H2].
  revert Hv. rewrite E in *.
  set (cpf := firstn 3 l ++ _) in *. clearbody cpf. intros Hv.
  unfold extract_cpfs, scan_patterns.
  change cpf_patterns with [nth 0 cpf_patterns []; nth 1 cpf_patterns []].
  cbn [flat_map]. rewrite H1, H2. cbn [filter fst app].
  rewrite Hv. destruct (all_equal _); reflexivity.
Qed.

(** ** [extract_rgs] *)

Lemma filter_cons_true {A} (f : A -> bool) (x : A) (l : list A) :
  f x = true -> filter f (x :: l) = x :: filter f l.
Proof. intros H. cbn [filter]. now rewrite H. Qed.

Lemma filter_cons_false {A} (f : A -> bool) (x : A) (l : list A) :
  f x = false -> filter f (x :: l) = filter f l.
Proof. intros H. cbn [filter]. now rewrite H. Qed.

Lemma digit_or_x_of_digit (c : ascii) :
  is_digit c = true -> cls_match DigitOrX c = true.
Proof. intros H. cbn [cls_match]. now rewrite H. Qed.

Ltac shape_facts H :=
  cbn [shape_match cls_match digits repeat app] in H;
  repeat match goal with
         | H : _ && _ = true |- _ => apply andb_true_iff in H as [? H]
         end;
  repeat match goal with
         | H : Ascii.eqb _ _ = true |- _ => apply Ascii.eqb_eq in H; subst
         | H : is_digit _ = true |- _ => apply digit_or_x_of_digit in H
         end.

Ltac clean_rg :=
  unfold validate_rg, rg_clean;
  repeat first
    [ rewrite filter_cons_true by assumption
    | rewrite filter_cons_false by reflexivity ];
  reflexivity.

(** What the three alternatives of the RG patterns match passes
    [validate_rg]. *)
Lemma validate_rg_of_match (p : shape) (m : str) :
  In p (concat rg_patterns) -> shape_match p m = true ->
  length m = length p -> validate_rg m = true.
Proof.
  intros Hp Hm Hl. cbn [rg_patterns concat app] in Hp.
  destruct Hp as [<-|[<-|[<-|[]]]]; cbn [digits repeat app length] in Hl.
  - do 13 (destruct m as [|? m]; try discriminate Hl).
    shape_facts Hm. clean_rg.
  - do 11 (destruct m as [|? m]; try discriminate Hl).
    shape_facts Hm. clean_rg.
  - do 10 (destruct m as [|? m]; try discriminate Hl).
    shape_facts Hm. clean_rg.
Qed.

Lemma rg_matches_valid (r : regex) (txt : str) :
  In r rg_patterns ->
  filter (fun m : span => validate_rg (fst (fst m))) (finditer r txt)
  = finditer r txt.
Proof.
  intros Hr. apply filter_all. apply Forall_forall. intros [[m a] b] H.
  apply finditer_In in H as (_ & _ & _ & p & Hp & Hm & Hl). cbn [fst].
  apply (validate_rg_of_match p); try assumption.
  apply in_concat. exists r. now split.
Qed.

(** X4.  The check of [validate_rg] in [extract_rgs] never drops a match:
    the result is every match of the first pattern followed by every
    match of the second, each a piece of the text at its offsets of 12, 10
    or 9 characters. *)
Theorem extract_rgs_keeps_every_match (txt : str) :
  extract_rgs txt = flat_map (fun pattern => finditer pattern txt) rg_patterns
  /\ Forall (fun m : span =>
               let '(rg, a, b) := m in
               b = a + length rg /\ b <= length txt
               /\ rg = firstn (length rg) (skipn a txt)
               /\ In (length rg) [12; 10; 9])
            (extract_rgs txt).
Proof.
  assert (E : extract_rgs txt
              = flat_map (fun pattern => finditer pattern txt) rg_patterns).
  { unfold extract_rgs, scan_patterns.
    change rg_patterns with [nth 0 rg_patterns []; nth 1 rg_patterns []].
    cbn [flat_map].
    rewrite !rg_matches_valid by (cbn; auto). reflexivity. }
  split; [exact E|].
  rewrite E. apply Forall_forall. intros [[m a] b] H.
  apply in_flat_map in H as (r & Hr & H).
  apply finditer_In in H as (H1 & H2 & H3 & p & Hp & _ & Hl).
  repeat split; try assumption.
  rewrite Hl. cbn [rg_patterns] in Hr.
  destruct Hr as [<-|[<-|[]]].
  - destruct Hp as [<-|[]]. cbn. auto.
  - destruct Hp as [<-|[<-|[]]]; cbn; auto.
Qed.

Lemma rg_format_matches (l : str) (x : ascii) :
  Forall (fun c => is_digit c = true) l -> length l = 8 ->
  cls_match DigitOrX x = true ->
  let rg := firstn 2 l ++ lit "." ++ firstn 3 (skipn 2 l) ++ lit "."
              ++ firstn 3 (skipn 5 l) ++ lit "-" ++ [x] in
  finditer (nth 0 rg_patterns []) rg = [(rg, 0, 12)]
  /\ finditer (nth 1 rg_patterns []) rg = [(firstn 10 rg, 0, 10)].
Proof.
  intros H Hl Hx.
  do 9 (destruct l as [|? l]; try discriminate Hl). clear Hl.
  repeat match goal with
         | H : Forall _ (_ :: _) |- _ => apply Forall_cons_iff in H as [? H]
         end.
  clear H.
  cbv zeta. cbn [firstn skipn app lit list_ascii_of_string nth rg_patterns].
  split.
  - apply finditer_whole; [discriminate|].
    cbn [match_here shape_match digits repeat app length].
    rewrite Hx. cbn [cls_match].
    digits_known. reflexivity.
  - rewrite (finditer_head _ _ 9).
    + cbn [firstn skipn]. f_equal.
      apply finditer_from_none. intros k Hk. cbn [length] in Hk.
      do 2 (destruct k as [|k];
            [cbn [skipn match_here shape_match digits repeat app cls_match length];
             rewrite ?andb_false_r; reflexivity|]).
      exfalso; lia.
    + cbn [match_here shape_match digits repeat app cls_match length].
      digits_known. reflexivity.
Qed.

Lemma generate_valid_rg_format (g : rng) :
  exists l x, Forall (fun c => is_digit c = true) l /\ length l = 8
    /\ cls_match DigitOrX x = true
    /\ fst (generate_valid_rg g)
       = firstn 2 l ++ lit "." ++ firstn 3 (skipn 2 l) ++ lit "."
           ++ firstn 3 (skipn 5 l) ++ lit "-" ++ [x].
Proof.
  unfold generate_valid_rg. rewrite randints_digits.
  destruct (choice _ _ _) as [last g'] eqn:Ec. cbn [fst].
  rewrite (join_digits _ (next_digits_bound 8 g)).
  assert (Hx : exists x, last = [x] /\ cls_match DigitOrX x = true).
  { replace last with (fst (last, g')) by reflexivity. rewrite <- Ec.
    clear Ec. unfold choice. cbn [fst].
    match goal with |- context [nth (?k mod ?n) _ _] =>
      assert (Hk : k mod n < 11) by (apply Nat.mod_upper_bound; discriminate);
      set (i := k mod n) in *; clearbody i end.
    do 11 (destruct i as [|i]; [eexists; split; reflexivity|]).
    exfalso; lia. }
  destruct Hx as (x & -> & Hx).
  exists (map digit_char (next_digits 8 g)), x.
  split; [apply digit_chars_are_digits, next_digits_bound|].
  split; [now rewrite length_map, next_digits_length|].
  split; [exact Hx|reflexivity].
Qed.

(** X5.  [extract_rgs] on a string [generate_valid_rg] returns finds it
    twice: whole, by the first pattern, and without the dash and the last
    character, by the second. *)
Theorem extract_rgs_of_generated (g : rng) :
  extract_rgs (fst (generate_valid_rg g))
  = [(fst (generate_valid_rg g), 0, 12);
     (firstn 10 (fst (generate_valid_rg g)), 0, 10)].
Proof.
  destruct (generate_valid_rg_format g) as (l & x & Hd & Hl & Hx & E).
  destruct (rg_format_matches l x Hd Hl Hx) as [H1 H2].
  rewrite E in *.
  set (rg := firstn 2 l ++ _) in *. clearbody rg.
  unfold extract_rgs, scan_patterns.
  change rg_patterns with [nth 0 rg_patterns []; nth 1 rg_patterns []].
  cbn [flat_map].
  rewrite !rg_matches_valid by (cbn; auto).
  rewrite H1, H2. reflexivity.
Qed.

(** ** [extract_birth_dates] *)

Lemma extract_birth_dates_entries (current_year : Z) (txt : str) :
  Forall (fun r : date_span =>
            let '(date_str, a, b, date_obj) := r in
            b = a + 10 /\ b <= length txt
            /\ date_str = firstn 10 (skipn a txt)
            /\ valid_date date_obj = true
            /\ (current_year - 120 <= fst (fst date_obj) <= current_year)%Z
            /\ date_obj = (int_of_digits (skipn 6 date_str),
                           int_of_digits (firstn 2 (skipn 3 date_str)),
                           int_of_digits (firstn 2 date_str)))
         (extract_birth_dates current_year txt).
Proof.
  apply Forall_forall. intros [[[date_str a] b] date_obj] H.
  unfold extract_birth_dates in H.
  apply in_flat_map in H as (sep & Hsep & H).
  apply in_flat_map in H as ([[m s] e] & Hm & H).
  destruct (strptime_dmy sep m) as [obj|] eqn:Ep; [|contradiction].
  destruct ((0 <=? current_year - fst (fst obj))%Z
            && (current_year - fst (fst obj) <=? 120)%Z) eqn:Eage;
    [|contradiction].
  destruct H as [H|[]].
  assert (E1 : m = date_str) by congruence.
  assert (E2 : s = a) by congruence.
  assert (E3 : e = b) by congruence.
  assert (E4 : obj = date_obj) by congruence.
  clear H. subst m s e obj.
  apply finditer_In in Hm as (H1 & H2 & H3 & p & Hp & _ & Hl).
  destruct Hp as [<-|[]].
  assert (L : length date_str = 10) by (rewrite Hl; reflexivity).
  rewrite L in *. clear Hl.
  apply andb_true_iff in Eage as [A1 A2].
  apply Z.leb_le in A1, A2.
  split; [exact H1|]. split; [exact H2|]. split; [exact H3|].
  clear H1 H2 H3.
  do 11 (destruct date_str as [|? date_str]; try discriminate L). clear L.
  unfold strptime_dmy in Ep.
  destruct (_ && _ && _) in Ep; [|discriminate Ep].
  destruct (valid_date _) eqn:Ev in Ep; [|discriminate Ep].
  injection Ep as <-.
  split; [exact Ev|]. split; [lia|]. reflexivity.
Qed.

(** X6.  Every entry of [extract_birth_dates] is a piece of ten
    characters of the text at the offsets given with it, read as day,
    month and year, and its date is a date of the calendar whose year is
    at most 120 years before the current one and not after it. *)
Theorem extract_birth_dates_sound (current_year : Z) (txt : str) :
  Forall (fun r : date_span =>
            let '(date_str, a, b, date_obj) := r in
            b = a + 10 /\ b <= length txt
            /\ date_str = firstn 10 (skipn a txt)
            /\ valid_date date_obj = true
            /\ (current_year - 120 <= fst (fst date_obj) <= current_year)%Z
            /\ date_obj = (int_of_digits (skipn 6 date_str),
                           int_of_digits (firstn 2 (skipn 3 date_str)),
                           int_of_digits (firstn 2 date_str)))
         (extract_birth_dates current_year txt).
Proof. apply extract_birth_dates_entries. Qed.

(** ** Texts without digits *)

Lemma match_here_no_digit (r : regex) (c : ascii) (s : str) :
  (forall p, In p r -> exists q, p = Digit :: q) ->
  is_digit c = false -> match_here r (c :: s) = None.
Proof.
  intros Hr Hc. induction r as [|p r IH]; [reflexivity|].
  cbn [match_here].
  destruct (Hr p (or_introl eq_refl)) as (q & ->).
  cbn [shape_match cls_match]. rewrite Hc. cbn [andb].
  apply IH. intros p Hp. apply Hr. now right.
Qed.

Lemma finditer_no_digit (r : regex) (txt : str) :
  (forall p, In p r -> exists q, p = Digit :: q) ->
  forallb (fun c => negb (is_digit c)) txt = true ->
  finditer r txt = [].
Proof.
  intros Hr H. unfold finditer.
  enough (G : forall pos, finditer_from r pos 0 txt = []) by apply G.
  induction txt as [|c txt IH]; intros pos; [reflexivity|].
  cbn [forallb] in H. apply andb_true_iff in H as [Hc H].
  apply negb_true_iff in Hc.
  cbn [finditer_from]. rewrite (match_here_no_digit r c txt Hr Hc).
  now apply IH.
Qed.

Lemma patterns_start_with_digit (r : regex) :
  In r cpf_patterns \/ In r rg_patterns
  \/ (exists sep, r = date_pattern sep) ->
  forall p, In p r -> exists q, p = Digit :: q.
Proof.
  intros H p Hp.
  destruct H as [H|[H|(sep & ->)]].
  - destruct H as [<-|[<-|[]]]; destruct Hp as [<-|[]]; eexists; reflexivity.
  - destruct H as [<-|[<-|[]]].
    + destruct Hp as [<-|[]]; eexists; reflexivity.
    + destruct Hp as [<-|[<-|[]]]; eexists; reflexivity.
  - destruct Hp as [<-|[]]; eexists; reflexivity.
Qed.

Lemma no_digits_no_matches (current_year : Z) (txt : str) :
  forallb (fun c => negb (is_digit c)) txt = true ->
  extract_cpfs txt = [] /\ extract_rgs txt = []
  /\ extract_birth_dates current_year txt = [].
Proof.
  intros H.
  assert (Hs : forall keep patterns,
             (forall r, In r patterns ->
                        forall p, In p r -> exists q, p = Digit :: q) ->
             scan_patterns keep patterns txt = []).
  { intros keep patterns Hp. unfold scan_patterns.
    induction patterns as [|r patterns IH]; [reflexivity|].
    cbn [flat_map].
    rewrite (finditer_no_digit r txt) by (try apply Hp; auto; now left).
    cbn [filter app]. apply IH. intros r' Hr'. apply Hp. now right. }
  split; [|split].
  - unfold extract_cpfs. rewrite Hs; [reflexivity|].
    intros r Hr. apply patterns_start_with_digit. now left.
  - unfold extract_rgs. apply Hs.
    intros r Hr. apply patterns_start_with_digit. right. now left.
  - unfold extract_birth_dates.
    induction date_separators as [|sep seps IH]; [reflexivity|].
    cbn [flat_map]. rewrite finditer_no_digit; [exact IH| |exact H].
    apply patterns_start_with_digit. right. right. now exists sep.
Qed.

(** X7.  In a text without a digit the three extractors find nothing. *)
Theorem no_digits_nothing_extracted (current_year : Z) (txt : str) :
  forallb (fun c => negb (is_digit c)) txt = true ->
  extract_cpfs txt = [] /\ extract_rgs txt = []
  /\ extract_birth_dates current_year txt = [].
Proof. apply no_digits_no_matches. Qed.

Lemma no_digits_nothing_extracted_witness :
  extract_cpfs (lit "sem dados") = [] /\ extract_rgs (lit "sem dados") = []
  /\ extract_birth_dates 2026 (lit "sem dados") = [].
Proof.
  apply (no_digits_nothing_extracted 2026 (lit "sem dados")). reflexivity.
Defined.

(** ** [anonymize] on a text in which nothing is detected *)

(** X8.  When the pipeline names no person in a text without digits,
    [anonymize] adds nothing to the mapping, draws no name and no random
    number, and only applies the entries the instance already has; a new
    instance returns the text as it is, with the empty mapping. *)
Theorem anonymize_nothing_detected (nlp : EntityDetector.pipeline)
        (current_year : Z) (txt : str) (st : state) (f : Faker) (g : rng) :
  EntityDetector.detect_persons nlp txt = [] ->
  forallb (fun c => negb (is_digit c)) txt = true ->
  anonymize nlp current_year txt st
  = (substitute (mapping st) txt, mapping st, st)
  /\ anonymize nlp current_year txt (init f g)
     = (txt, empty_mapping, init f g).
Proof.
  intros Hp Hd.
  destruct (no_digits_no_matches current_year txt Hd) as (Hc & Hr & Hb).
  assert (E : forall st, generate_replacements
                 (EntityDetector.detect_all nlp current_year txt) st = st).
  { intros [[ps cs rs ds] fk rd].
    unfold generate_replacements, EntityDetector.detect_all,
      EntityDetector.detect_cpfs, EntityDetector.detect_rgs,
      EntityDetector.detect_dates.
    rewrite Hp, Hc, Hr, Hb. reflexivity. }
  unfold anonymize. cbv zeta. rewrite !E. split; reflexivity.
Qed.

Lemma anonymize_nothing_detected_witness :
  anonymize no_persons 2026 (lit "sem dados") (init (constant_faker (lit "Ana Lima")) (constant_rng 1))
  = (substitute (mapping (init (constant_faker (lit "Ana Lima")) (constant_rng 1))) (lit "sem dados"),
     mapping (init (constant_faker (lit "Ana Lima")) (constant_rng 1)),
     init (constant_faker (lit "Ana Lima")) (constant_rng 1))
  /\ anonymize no_persons 2026 (lit "sem dados")
               (init (constant_faker (lit "Ana Lima")) (constant_rng 1))
     = (lit "sem dados", empty_mapping,
        init (constant_faker (lit "Ana Lima")) (constant_rng 1)).
Proof.
  apply (anonymize_nothing_detected no_persons 2026 (lit "sem dados")
           (init (constant_faker (lit "Ana Lima")) (constant_rng 1))
           (constant_faker (lit "Ana Lima")) (constant_rng 1));
    reflexivity.
Defined.


(** ** [detect_persons] *)

Lemma persons_of_ents_spec (seen : list str) (ents : list EntityDetector.Ent) :
  let found := EntityDetector.persons_of_ents seen ents in
  NoDup (map EntityDetector.text found)
  /\ Forall (fun e =>
               ~ In (EntityDetector.text e) seen
               /\ EntityDetector.text e <> []
               /\ EntityDetector.entity_type e = EntityDetector.PERSON
               /\ exists ent,
                   In ent ents
                   /\ EntityDetector.label_ ent = lit "PER"
                   /\ EntityDetector.text e = strip (EntityDetector.ent_text ent)
                   /\ EntityDetector.start e = EntityDetector.start_char ent
                   /\ EntityDetector.end_ e = EntityDetector.end_char ent)
            found
  /\ Forall (fun ent =>
               EntityDetector.label_ ent = lit "PER" ->
               strip (EntityDetector.ent_text ent) <> [] ->
               In (strip (EntityDetector.ent_text ent)) seen
               \/ In (strip (EntityDetector.ent_text ent))
                     (map EntityDetector.text found))
            ents.
Proof.
  cbv zeta. revert seen.
  induction ents as [|ent ents IH]; intros seen.
  - cbn. repeat split; constructor.
  - cbn [EntityDetector.persons_of_ents].
    assert (Skip : forall found,
               found = EntityDetector.persons_of_ents seen ents ->
               (EntityDetector.label_ ent = lit "PER" ->
                strip (EntityDetector.ent_text ent) <> [] ->
                In (strip (EntityDetector.ent_text ent)) seen) ->
               NoDup (map EntityDetector.text found)
               /\ Forall (fun e =>
                    ~ In (EntityDetector.text e) seen
                    /\ EntityDetector.text e <> []
                    /\ EntityDetector.entity_type e = EntityDetector.PERSON
                    /\ exists ent0,
                        In ent0 (ent :: ents)
                        /\ EntityDetector.label_ ent0 = lit "PER"
                        /\ EntityDetector.text e
                           = strip (EntityDetector.ent_text ent0)
                        /\ EntityDetector.start e = EntityDetector.start_char ent0
                        /\ EntityDetector.end_ e = EntityDetector.end_char ent0)
                    found
               /\ Forall (fun ent0 =>
                    EntityDetector.label_ ent0 = lit "PER" ->
                    strip (EntityDetector.ent_text ent0) <> [] ->
                    In (strip (EntityDetector.ent_text ent0)) seen
                    \/ In (strip (EntityDetector.ent_text ent0))
                          (map EntityDetector.text found))
                    (ent :: ents)).
    { intros found -> Hent. destruct (IH seen) as (N & F & C).
      split; [exact N|]. split.
      - eapply Forall_impl; [|exact F].
        intros e (H1 & H2 & H3 & ent0 & H4 & H5).
        repeat split; try assumption. exists ent0. split; [now right|exact H5].
      - apply Forall_cons; [|exact C]. intros Hl Hn. left. now apply Hent. }
    destruct (str_eqb (EntityDetector.label_ ent) (lit "PER")) eqn:El.
    + apply str_eqb_eq in El.
      destruct (str_eqb (strip (EntityDetector.ent_text ent)) []) eqn:En;
        cbn [negb andb].
      * apply str_eqb_eq in En. apply Skip; [reflexivity|].
        intros _ Hn. contradiction.
      * apply str_eqb_neq in En.
        destruct (existsb (str_eqb (strip (EntityDetector.ent_text ent))) seen)
          eqn:Es; cbn [negb].
        -- apply Skip; [reflexivity|]. intros _ _.
           apply existsb_exists in Es as (x & Hx & Ex).
           apply str_eqb_eq in Ex. now subst x.
        -- assert (Hs : ~ In (strip (EntityDetector.ent_text ent)) seen).
           { intros Hin.
             assert (existsb (str_eqb (strip (EntityDetector.ent_text ent))) seen
                     = true); [|congruence].
             apply existsb_exists. eexists. split; [exact Hin|].
             apply str_eqb_refl. }
           destruct (IH (strip (EntityDetector.ent_text ent) :: seen))
             as (N & F & C).
           cbn [map EntityDetector.text]. split; [|split].
           ++ apply NoDup_cons; [|exact N].
              intros Hin. apply in_map_iff in Hin as (e & He & Hin).
              apply (proj1 (Forall_forall _ _) F) in Hin as (Hin & _).
              apply Hin. left. now symmetry.
           ++ apply Forall_cons.
              ** cbn. repeat split; try assumption.
                 exists ent. repeat split; try reflexivity; try assumption.
                 now left.
              ** eapply Forall_impl; [|exact F].
                 intros e (H1 & H2 & H3 & ent0 & H4 & H5).
                 split; [intros Hin; apply H1; now right|].
                 repeat split; try assumption.
                 exists ent0. split; [now right|exact H5].
           ++ apply Forall_cons; [intros _ _; right; now left|].
              eapply Forall_impl; [|exact C].
              intros ent0 H Hl Hn. destruct (H Hl Hn) as [[Hx|Hx]|Hx].
              ** right. left. exact Hx.
              ** now left.
              ** right. now right.
    + apply str_eqb_neq in El. apply Skip; [reflexivity|].
      intros Hl. contradiction.
Qed.

(** X9.  [detect_persons] returns each stripped, non-empty text of a
    [PER] entity once: the texts are pairwise distinct, every entry is a
    PERSON with the stripped text and the offsets of one of the pipeline's
    [PER] entities, and every such entity with a non-empty stripped text is
    represented. *)
Theorem detect_persons_unique_stripped (nlp : EntityDetector.pipeline)
        (txt : str) :
  NoDup (map EntityDetector.text (EntityDetector.detect_persons nlp txt))
  /\ Forall (fun e =>
               EntityDetector.text e <> []
               /\ EntityDetector.entity_type e = EntityDetector.PERSON
               /\ exists ent,
                   In ent (nlp txt)
                   /\ EntityDetector.label_ ent = lit "PER"
                   /\ EntityDetector.text e = strip (EntityDetector.ent_text ent)
                   /\ EntityDetector.start e = EntityDetector.start_char ent
                   /\ EntityDetector.end_ e = EntityDetector.end_char ent)
            (EntityDetector.detect_persons nlp txt)
  /\ Forall (fun ent =>
               EntityDetector.label_ ent = lit "PER" ->
               strip (EntityDetector.ent_text ent) <> [] ->
               In (strip (EntityDetector.ent_text ent))
                  (map EntityDetector.text
                       (EntityDetector.detect_persons nlp txt)))
            (nlp txt).
Proof.
  unfold EntityDetector.detect_persons.
  destruct (persons_of_ents_spec [] (nlp txt)) as (N & F & C).
  split; [exact N|]. split.
  - eapply Forall_impl; [|exact F]. intros e (_ & H). exact H.
  - eapply Forall_impl; [|exact C]. intros ent H Hl Hn.
    destruct (H Hl Hn) as [[]|Hx]. exact Hx.
Qed.

(** ** The keys [generate_replacements] adds *)

Lemma dict_contains_keys (k : str) (d : dict) :
  dict_contains k d = existsb (str_eqb k) (keys d).
Proof.
  unfold dict_contains, keys. induction d as [|kv d IH]; [reflexivity|].
  cbn. now rewrite IH.
Qed.

Lemma fill_keys {S} (make : str -> S -> str * S)
      (entities : list EntityDetector.DetectedEntity) (d : dict) (s : S) :
  keys (fst (fill make entities d s))
  = fold_left (fun ks e => EntityDetector.set_add (EntityDetector.text e) ks)
              entities (keys d).
Proof.
  unfold fill. revert d s.
  induction entities as [|e entities IH]; intros d s; cbn [fold_left];
    [reflexivity|].
  unfold EntityDetector.set_add at 2. rewrite <- dict_contains_keys.
  destruct (dict_contains (EntityDetector.text e) d) eqn:E; [apply IH|].
  destruct (make (EntityDetector.text e) s) as [value s1].
  rewrite IH. f_equal. rewrite dict_set_fresh by exact E.
  unfold keys. now rewrite map_app.
Qed.

Lemma set_add_spec (x : str) (ks : list str) :
  (NoDup ks -> NoDup (EntityDetector.set_add x ks))
  /\ forall y, In y (EntityDetector.set_add x ks) <-> In y ks \/ y = x.
Proof.
  unfold EntityDetector.set_add.
  destruct (existsb (str_eqb x) ks) eqn:E.
  - apply existsb_exists in E as (z & Hz & Ez). apply str_eqb_eq in Ez. subst z.
    split; [auto|]. intros y. split; [auto|]. intros [H| ->]; assumption.
  - assert (Hx : ~ In x ks).
    { intros H. assert (existsb (str_eqb x) ks = true); [|congruence].
      apply existsb_exists. exists x. split; [exact H|apply str_eqb_refl]. }
    split.
    + intros N. apply NoDup_app; [exact N|repeat constructor; intros []|].
      intros y Hy [<-|[]]. contradiction.
    + intros y. rewrite in_app_iff. cbn. intuition congruence.
Qed.

Lemma set_adds_spec (l : list EntityDetector.DetectedEntity) (ks : list str) :
  let ks' := fold_left (fun ks e =>
                          EntityDetector.set_add (EntityDetector.text e) ks)
                       l ks in
  (NoDup ks -> NoDup ks')
  /\ forall y, In y ks' <-> In y ks \/ In y (map EntityDetector.text l).
Proof.
  cbv zeta. revert ks. induction l as [|e l IH]; intros ks; cbn [fold_left map].
  - split; [auto|]. intros y. cbn. tauto.
  - destruct (IH (EntityDetector.set_add (EntityDetector.text e) ks)) as [N I].
    destruct (set_add_spec (EntityDetector.text e) ks) as [N0 I0].
    split; [auto|]. intros y. rewrite I, I0. cbn. intuition congruence.
Qed.

Lemma fill_ok {S} (make : str -> S -> str * S)
      (entities : list EntityDetector.DetectedEntity) (d : dict) (s : S) :
  dict_ok d ->
  dict_ok (fst (fill make entities d s))
  /\ Forall (fun e => dict_contains (EntityDetector.text e)
                                    (fst (fill make entities d s)) = true)
            entities.
Proof.
  intros Hd. unfold dict_ok. fold (keys (fst (fill make entities d s))).
  destruct (set_adds_spec entities (keys d)) as [N I].
  rewrite <- (fill_keys make entities d s) in N, I. split; [now apply N|].
  apply Forall_forall. intros e He. rewrite dict_contains_keys.
  apply existsb_exists. exists (EntityDetector.text e).
  split; [|apply str_eqb_refl]. apply I. right. now apply in_map.
Qed.

(** X10.  [generate_replacements] keeps every dict of the mapping free of
    repeated keys, and afterwards every detected entity has an entry under
    its text in the dict of its kind. *)
Theorem generate_replacements_covers (entities : EntityDetector.Entities)
        (st : state) :
  mapping_ok (mapping st) ->
  let m := mapping (generate_replacements entities st) in
  mapping_ok m
  /\ Forall (fun e => dict_contains (EntityDetector.text e) (persons m) = true)
            (EntityDetector.persons entities)
  /\ Forall (fun e => dict_contains (EntityDetector.text e) (cpfs m) = true)
            (EntityDetector.cpfs entities)
  /\ Forall (fun e => dict_contains (EntityDetector.text e) (rgs m) = true)
            (EntityDetector.rgs entities)
  /\ Forall (fun e => dict_contains (EntityDetector.text e) (dates m) = true)
            (EntityDetector.dates entities).
Proof.
  intros (Hp & Hc & Hr & Hd). cbv zeta. unfold generate_replacements.
  pose proof (fill_ok (fun _ => faker_name) (EntityDetector.persons entities)
                      _ (faker st) Hp) as [Op Cp].
  destruct (fill (fun _ => faker_name) _ _ _) as [ps f1].
  pose proof (fill_ok (fun _ => generate_valid_cpf)
                      (EntityDetector.cpfs entities) _ (random st) Hc)
    as [Oc Cc].
  destruct (fill (fun _ => generate_valid_cpf) _ _ _) as [cs g1].
  pose proof (fill_ok (fun _ => generate_valid_rg)
                      (EntityDetector.rgs entities) _ g1 Hr) as [Or Cr].
  destruct (fill (fun _ => generate_valid_rg) _ _ _) as [rs g2].
  pose proof (fill_ok _generate_adult_date
                      (EntityDetector.dates entities) _ g2 Hd) as [Od Cd].
  destruct (fill _generate_adult_date _ _ _) as [ds g3].
  cbn [mapping persons cpfs rgs dates fst] in *.
  repeat split; assumption.
Qed.

Lemma generate_replacements_covers_witness :
  let entities := EntityDetector.detect_all no_persons 2026 (lit "15/03/1990") in
  let m := mapping (generate_replacements entities
                      (init (constant_faker (lit "Ana Lima")) (constant_rng 7))) in
  mapping_ok m
  /\ Forall (fun e => dict_contains (EntityDetector.text e) (persons m) = true)
            (EntityDetector.persons entities)
  /\ Forall (fun e => dict_contains (EntityDetector.text e) (cpfs m) = true)
            (EntityDetector.cpfs entities)
  /\ Forall (fun e => dict_contains (EntityDetector.text e) (rgs m) = true)
            (EntityDetector.rgs entities)
  /\ Forall (fun e => dict_contains (EntityDetector.text e) (dates m) = true)
            (EntityDetector.dates entities).
Proof.
  apply (generate_replacements_covers
           (EntityDetector.detect_all no_persons 2026 (lit "15/03/1990"))
           (init (constant_faker (lit "Ana Lima")) (constant_rng 7))).
  cbn. repeat split; apply NoDup_nil.
Defined.

(** X11.  On a new instance the keys of the mapping after [anonymize]
    are the distinct texts of the detected entities, kind by kind, and
    the counts of [get_summary] are the sizes of the sets of
    [get_unique_values]. *)
Theorem get_summary_counts_unique_values (nlp : EntityDetector.pipeline)
        (current_year : Z) (txt : str) (f : Faker) (g : rng) :
  let entities := EntityDetector.detect_all nlp current_year txt in
  let st := snd (anonymize nlp current_year txt (init f g)) in
  keys (persons (mapping st))
  = EntityDetector.texts_of (EntityDetector.persons entities)
  /\ keys (cpfs (mapping st))
     = EntityDetector.texts_of (EntityDetector.cpfs entities)
  /\ keys (rgs (mapping st))
     = EntityDetector.texts_of (EntityDetector.rgs entities)
  /\ keys (dates (mapping st))
     = EntityDetector.texts_of (EntityDetector.dates entities)
  /\ map snd (get_summary st)
     = map (fun kv => length (snd kv))
           (EntityDetector.get_unique_values entities).
Proof.
  cbv zeta. unfold anonymize. cbn [snd]. unfold generate_replacements.
  set (entities := EntityDetector.detect_all nlp current_year txt).
  pose proof (fill_keys (fun _ => faker_name) (EntityDetector.persons entities)
                        (persons (mapping (init f g))) (faker (init f g))) as Kp.
  destruct (fill (fun _ => faker_name) _ _ _) as [ps f1].
  pose proof (fill_keys (fun _ => generate_valid_cpf)
                        (EntityDetector.cpfs entities)
                        (cpfs (mapping (init f g))) (random (init f g))) as Kc.
  destruct (fill (fun _ => generate_valid_cpf) _ _ _) as [cs g1].
  pose proof (fill_keys (fun _ => generate_valid_rg)
                        (EntityDetector.rgs entities)
                        (rgs (mapping (init f g))) g1) as Kr.
  destruct (fill (fun _ => generate_valid_rg) _ _ _) as [rs g2].
  pose proof (fill_keys _generate_adult_date (EntityDetector.dates entities)
                        (dates (mapping (init f g))) g2) as Kd.
  destruct (fill _generate_adult_date _ _ _) as [ds g3].
  cbn [mapping persons cpfs rgs dates fst init empty_mapping keys map] in *.
  fold (EntityDetector.texts_of (EntityDetector.persons entities)) in Kp.
  fold (EntityDetector.texts_of (EntityDetector.cpfs entities)) in Kc.
  fold (EntityDetector.texts_of (EntityDetector.rgs entities)) in Kr.
  fold (EntityDetector.texts_of (EntityDetector.dates entities)) in Kd.
  repeat split; try assumption.
  unfold get_summary, EntityDetector.get_unique_values.
  cbn [mapping persons cpfs rgs dates map snd].
  rewrite <- Kp, <- Kc, <- Kr, <- Kd. unfold keys. now rewrite !length_map.
Qed.


(** ** The format of the generated replacements *)

Lemma whole_match_shape (p : shape) (s : str) (n : nat) :
  finditer [p] s = [(s, 0, n)] -> has_shape p s.
Proof.
  intros H.
  assert (Hin : In (s, 0, n) (finditer [p] s)) by (rewrite H; now left).
  apply finditer_In in Hin as (_ & _ & _ & q & [<-|[]] & Hm & Hl).
  now split.
Qed.

Lemma generate_valid_cpf_shape (g : rng) :
  has_shape cpf_format (fst (generate_valid_cpf g)).
Proof.
  destruct (generate_valid_cpf_format g) as (l & Hd & Hl & ->).
  destruct (cpf_format_matches l Hd Hl) as [H _].
  eapply whole_match_shape. exact H.
Qed.

Lemma generate_valid_rg_shape (g : rng) :
  has_shape rg_format (fst (generate_valid_rg g)).
Proof.
  destruct (generate_valid_rg_format g) as (l & x & Hd & Hl & Hx & ->).
  destruct (rg_format_matches l x Hd Hl Hx) as [H _].
  eapply whole_match_shape. exact H.
Qed.

(** X12.  Whatever the format of the original, the replacement a new
    instance gives a CPF is a punctuated CPF of 14 characters, and the
    replacement it gives an RG is an RG of 12 characters with its check
    character, which [validate_rg] accepts. *)
Theorem cpf_rg_replacements_format (entities : EntityDetector.Entities)
        (f : Faker) (g : rng) :
  let m := mapping (generate_replacements entities (init f g)) in
  Forall (fun kv => has_shape cpf_format (snd kv) /\ length (snd kv) = 14)
         (cpfs m)
  /\ Forall (fun kv => has_shape rg_format (snd kv) /\ length (snd kv) = 12
                       /\ validate_rg (snd kv) = true)
            (rgs m).
Proof.
  cbv zeta. unfold generate_replacements.
  destruct (fill (fun _ => faker_name) _ _ _) as [ps f1].
  pose proof (fill_In (fun _ => generate_valid_cpf)
                      (EntityDetector.cpfs entities)
                      (cpfs (mapping (init f g))) (random (init f g))) as Ic.
  destruct (fill (fun _ => generate_valid_cpf) _ _ _) as [cs g1].
  pose proof (fill_In (fun _ => generate_valid_rg)
                      (EntityDetector.rgs entities)
                      (rgs (mapping (init f g))) g1) as Ir.
  destruct (fill (fun _ => generate_valid_rg) _ _ _) as [rs g2].
  destruct (fill _generate_adult_date _ _ _) as [ds g3].
  cbn [mapping cpfs rgs fst init empty_mapping] in *.
  split; apply Forall_forall; intros [o r] H; cbn [snd].
  - apply Ic in H as [[]|(e & s' & _ & _ & ->)].
    pose proof (generate_valid_cpf_shape s') as Hs.
    split; [exact Hs|]. destruct Hs as [_ ->]. reflexivity.
  - apply Ir in H as [[]|(e & s' & _ & _ & ->)].
    pose proof (generate_valid_rg_shape s') as Hs.
    split; [exact Hs|]. destruct Hs as [Hm Hl].
    split; [rewrite Hl; reflexivity|].
    apply (validate_rg_of_match rg_format); try assumption.
    cbn. now left.
Qed.

(** ** Texts in which no key occurs *)

Lemma scan_replace_absent (matches : str -> str -> bool) (old : str)
      (new : str -> str) (s : str) :
  (forall k, k < length s -> matches old (skipn k s) = false) ->
  scan_replace matches old new 0 s = s.
Proof.
  induction s as [|c s IH]; intros H; [reflexivity|].
  cbn [scan_replace].
  pose proof (H 0 ltac:(simpl; lia)) as H0. cbn [skipn] in H0. rewrite H0.
  f_equal. apply IH. intros k Hk. apply (H (S k)). simpl. lia.
Qed.

Lemma occurs_in_false (anycase : bool) (p t : str) :
  occurs_in anycase p t = false ->
  p <> []
  /\ forall k, k < length t ->
       (if anycase then starts_with_ci else starts_with) p (skipn k t) = false.
Proof.
  unfold occurs_in. intros H.
  assert (G : forall k, k <= length t ->
              (if anycase then starts_with_ci else starts_with) p (skipn k t)
              = false).
  { intros k Hk.
    destruct ((if anycase then starts_with_ci else starts_with) p (skipn k t))
      eqn:E; [|reflexivity].
    assert (existsb (fun k => (if anycase then starts_with_ci else starts_with)
                                p (skipn k t)) (seq 0 (S (length t))) = true);
      [|congruence].
    apply existsb_exists. exists k. split; [|exact E].
    apply in_seq. lia. }
  split.
  - intros ->. specialize (G 0 (Nat.le_0_l _)).
    destruct anycase; discriminate G.
  - intros k Hk. apply G. lia.
Qed.

Lemma replace_absent (old new s : str) :
  occurs_in false old s = false -> replace old new s = s.
Proof.
  intros H. apply occurs_in_false in H as [Hn H].
  destruct old as [|x o]; [contradiction|].
  now apply scan_replace_absent.
Qed.

Lemma re_sub_ignorecase_absent (old new s : str) :
  occurs_in true old s = false -> re_sub_ignorecase old new s = s.
Proof.
  intros H. apply occurs_in_false in H as [Hn H].
  destruct old as [|x o]; [contradiction|].
  now apply scan_replace_absent.
Qed.

Lemma fold_absent (step : str -> str * str -> str) (d : dict) (txt : str) :
  Forall (fun kv => step txt kv = txt) d -> fold_left step d txt = txt.
Proof.
  induction 1 as [|kv d Hkv _ IH]; [reflexivity|].
  cbn [fold_left]. now rewrite Hkv.
Qed.

(** X13.  A text in which no key of the mapping occurs (a name in any
    letter case, a CPF, RG or date as written) is left as it is by the
    substitution of [anonymize]. *)
Theorem substitute_without_occurrence (m : Mapping) (txt : str) :
  Forall (fun kv => occurs_in true (fst kv) txt = false) (persons m) ->
  Forall (fun kv => occurs_in false (fst kv) txt = false)
         (cpfs m ++ rgs m ++ dates m) ->
  substitute m txt = txt.
Proof.
  intros Hp Hx. apply Forall_app in Hx as [Hc Hx].
  apply Forall_app in Hx as [Hr Hd].
  unfold substitute. cbv zeta.
  rewrite (fold_absent (fun t kv => re_sub_ignorecase (fst kv) (snd kv) t)).
  - assert (R : forall d, Forall (fun kv => occurs_in false (fst kv) txt = false) d ->
                 fold_left (fun t kv => replace (fst kv) (snd kv) t) d txt = txt).
    { intros d H. apply fold_absent. eapply Forall_impl; [|exact H].
      intros kv Hkv. now apply replace_absent. }
    rewrite (R _ Hc), (R _ Hr). now apply R.
  - apply Forall_forall. intros kv Hin.
    apply re_sub_ignorecase_absent.
    apply (proj1 (Forall_forall _ _) Hp).
    eapply Permutation_in; [|exact Hin].
    apply Permutation_sym, sorted_by_len_perm.
Qed.

Lemma substitute_without_occurrence_witness :
  substitute Toy.mapping (lit "sem dados") = lit "sem dados".
Proof.
  apply (substitute_without_occurrence Toy.mapping (lit "sem dados"));
    repeat (apply Forall_cons; [reflexivity|]); apply Forall_nil.
Defined.



Import Crypto.


(** ** Authentic tokens and stored mappings *)

Section Storage.

Variable L : library.
Hypothesis HL : contracts L.

(** X15.  What [decrypt_mapping] does with a token that authenticates,
    whatever was encrypted in it: a payload that is not UTF-8 leaves as
    the [UnicodeDecodeError] of the decoder, not as one of the two errors
    the function raises itself; UTF-8 that is not JSON is
    [CorruptDataError]; and every JSON value is returned as it is read,
    mapping or not. *)
Theorem decrypt_authentic_payload (password : str) (salt payload : bytes)
        (fr : fresh L) :
  length salt = 16 ->
  decrypt_mapping L
    (salt ++ fernet_encrypt L (_derive_key L password salt) fr payload)
    password
  = match utf8_decode L payload with
    | None => inl UnicodeDecodeError
    | Some s =>
        match json_loads L s with
        | None => inl CorruptDataError
        | Some v => inr v
        end
    end.
Proof.
  intros Hs. unfold decrypt_mapping.
  rewrite <- Hs, firstn_app_exact, skipn_app_exact.
  now rewrite (fernet_roundtrip L HL).
Qed.


End Storage.

Lemma decrypt_authentic_payload_witness :
  decrypt_mapping Toy.lib
    (os_urandom Toy.pool 16
       ++ fernet_encrypt Toy.lib
            (_derive_key Toy.lib (lit "pw") (os_urandom Toy.pool 16)) tt [xff])
    (lit "pw")
  = match utf8_decode Toy.lib [xff] with
    | None => inl UnicodeDecodeError
    | Some s =>
        match json_loads Toy.lib s with
        | None => inl CorruptDataError
        | Some v => inr v
        end
    end.
Proof.
  apply (decrypt_authentic_payload Toy.lib toy_contracts (lit "pw")
           (os_urandom Toy.pool 16) [xff] tt).
  reflexivity.
Defined.


(** ** [_extract_txt] and the choice of the extractor *)

(** X17.  [_extract_txt] returns the UTF-8 reading of the bytes when
    there is one, and their Latin-1 reading, one character per byte,
    otherwise: the loop never gets to [cp1252] or [iso-8859-1], nor to the
    fallback behind it.  A text encoded as UTF-8 is read back as it
    was. *)
Theorem extract_txt_utf8_or_latin1 (C : DocumentParser.codecs) :
  (forall s, DocumentParser.utf_8 C (utf8_encode s) = Some s) ->
  (forall s, DocumentParser._extract_txt C (utf8_encode s) = s)
  /\ (forall b,
        DocumentParser._extract_txt C b
        = match DocumentParser.utf_8 C b with
          | Some s => s
          | None => DocumentParser.latin_1 b
          end)
  /\ (forall b, DocumentParser.utf_8 C b = None ->
        length (DocumentParser._extract_txt C b) = length b)
  /\ (forall b, exists e s,
        DocumentParser.first_decoding C DocumentParser.encodings b = Some (e, s)
        /\ (e = DocumentParser.UTF_8 \/ e = DocumentParser.LATIN_1)).
Proof.
  intros H.
  assert (E : forall b,
             DocumentParser._extract_txt C b
             = match DocumentParser.utf_8 C b with
               | Some s => s
               | None => DocumentParser.latin_1 b
               end).
  { intros b. unfold DocumentParser._extract_txt, DocumentParser.encodings.
    cbn [DocumentParser.first_decoding DocumentParser.decode].
    destruct (DocumentParser.utf_8 C b); reflexivity. }
  repeat split.
  - intros s. now rewrite E, H.
  - exact E.
  - intros b Hb. rewrite E, Hb. unfold DocumentParser.latin_1.
    apply length_map.
  - intros b. unfold DocumentParser.encodings.
    cbn [DocumentParser.first_decoding DocumentParser.decode].
    destruct (DocumentParser.utf_8 C b) as [s|]; eauto.
Qed.

Lemma extract_txt_utf8_or_latin1_witness :
  (forall s, DocumentParser._extract_txt toy_codecs (utf8_encode s) = s)
  /\ (forall b,
        DocumentParser._extract_txt toy_codecs b
        = match DocumentParser.utf_8 toy_codecs b with
          | Some s => s
          | None => DocumentParser.latin_1 b
          end)
  /\ (forall b, DocumentParser.utf_8 toy_codecs b = None ->
        length (DocumentParser._extract_txt toy_codecs b) = length b)
  /\ (forall b, exists e s,
        DocumentParser.first_decoding toy_codecs DocumentParser.encodings b
        = Some (e, s)
        /\ (e = DocumentParser.UTF_8 \/ e = DocumentParser.LATIN_1)).
Proof.
  apply (extract_txt_utf8_or_latin1 toy_codecs). exact toy_decode_encode.
Defined.

(** X18.  For a document given as bytes, [extract_text] finds an
    extractor exactly for the file types [get_supported_extensions]
    lists, compared as they are written (no lowering); for [txt] it is
    [_extract_txt]. *)
Theorem extract_text_supported (file_type : str) :
  ((exists f, DocumentParser.extract_text_bytes (Some file_type) = inr f)
   <-> In file_type DocumentParser.get_supported_extensions)
  /\ DocumentParser.extract_text_bytes (Some (lit "txt"))
     = inr DocumentParser.extract_txt
  /\ DocumentParser.extract_text_bytes (Some (lit "TXT"))
     = inl (DocumentParser.UnsupportedFileType (lit "TXT"))
  /\ DocumentParser.extract_text_bytes None
     = inl DocumentParser.FileTypeRequired.
Proof.
  split; [|repeat split; reflexivity].
  unfold DocumentParser.extract_text_bytes, DocumentParser.extractors,
    DocumentParser.get_supported_extensions.
  split.
  - intros [f H]. destruct file_type as [|c ft]; [discriminate H|].
    cbn [DocumentParser.dict_get] in H.
    destruct (str_eqb (c :: ft) (lit "txt")) eqn:E1;
      [apply str_eqb_eq in E1; rewrite E1; now left|].
    destruct (str_eqb (c :: ft) (lit "docx")) eqn:E2;
      [apply str_eqb_eq in E2; rewrite E2; right; now left|].
    destruct (str_eqb (c :: ft) (lit "doc")) eqn:E3;
      [apply str_eqb_eq in E3; rewrite E3; right; right; now left|].
    destruct (str_eqb (c :: ft) (lit "pdf")) eqn:E4;
      [apply str_eqb_eq in E4; rewrite E4; right; right; right; now left|].
    discriminate H.
  - intros [<-|[<-|[<-|[<-|[]]]]]; eexists; reflexivity.
Qed.


(** ** The entities of [detect_all] *)

Lemma unique_by_digits_incl (seen : list str) (l : list span) (e : span) :
  In e (unique_by_digits seen l) -> In e l.
Proof.
  revert seen; induction l as [|[[cpf a] b] l IH]; intros seen;
    cbn [unique_by_digits]; [auto|].
  destruct (existsb _ seen).
  - intros H. right. eapply IH. exact H.
  - intros [H|H]; [now left|]. right. eapply IH. exact H.
Qed.

Lemma filter_In_scan (keep : str -> bool) (patterns : list regex)
      (txt : str) (m : span) :
  In m (scan_patterns keep patterns txt) ->
  exists r, In m (finditer r txt) /\ keep (fst (fst m)) = true.
Proof.
  unfold scan_patterns. intros H.
  apply in_flat_map in H as (r & _ & H).
  apply filter_In in H as [H Hk]. now exists r.
Qed.

(** X19.  The CPF, RG and DATE entities of [detect_all] carry the piece
    of the text between their offsets as their text; a CPF entity passes
    [validate_cpf], and a DATE entity carries a date of the calendar. *)
Theorem detect_all_located (nlp : EntityDetector.pipeline) (current_year : Z)
        (txt : str) :
  let entities := EntityDetector.detect_all nlp current_year txt in
  Forall (fun e => EntityDetector.entity_type e = EntityDetector.CPF
                   /\ EntityDetector.extra e = None
                   /\ located txt e
                   /\ validate_cpf (EntityDetector.text e) = true)
         (EntityDetector.cpfs entities)
  /\ Forall (fun e => EntityDetector.entity_type e = EntityDetector.RG
                      /\ EntityDetector.extra e = None
                      /\ located txt e)
            (EntityDetector.rgs entities)
  /\ Forall (fun e => EntityDetector.entity_type e = EntityDetector.DATE
                      /\ located txt e
                      /\ exists d, EntityDetector.extra e = Some d
                                   /\ valid_date d = true)
            (EntityDetector.dates entities).
Proof.
  cbv zeta.
  cbn [EntityDetector.detect_all EntityDetector.cpfs EntityDetector.rgs
       EntityDetector.dates].
  split; [|split]; apply Forall_forall; intros e H.
  - unfold EntityDetector.detect_cpfs in H.
    apply in_map_iff in H as ([[m a] b] & <- & H).
    apply unique_by_digits_incl in H.
    apply filter_In_scan in H.
    destruct H as (r & H & Hv).
    apply finditer_In in H as (H1 & H2 & H3 & _).
    cbn. unfold located. cbn. auto 7.
  - unfold EntityDetector.detect_rgs in H.
    apply in_map_iff in H as ([[m a] b] & <- & H).
    apply filter_In_scan in H.
    destruct H as (r & H & Hv).
    apply finditer_In in H as (H1 & H2 & H3 & _).
    cbn. unfold located. cbn. auto 7.
  - unfold EntityDetector.detect_dates in H.
    apply in_map_iff in H as ([[[m a] b] d] & <- & H).
    pose proof (extract_birth_dates_entries current_year txt) as F.
    apply (proj1 (Forall_forall _ _) F) in H.
    destruct H as (H1 & H2 & H3 & H4 & _).
    assert (L : length m = 10).
    { rewrite H3. rewrite length_firstn, length_skipn. lia. }
    cbn. unfold located. cbn. rewrite L. repeat split; try assumption.
    exists d. now split.
Qed.

(** ** A second call on the same text *)

Lemma fill_covered {S} (make : str -> S -> str * S)
      (entities : list EntityDetector.DetectedEntity) (d : dict) (s : S) :
  Forall (fun e => dict_contains (EntityDetector.text e) d = true) entities ->
  fill make entities d s = (d, s).
Proof.
  unfold fill. induction 1 as [|e entities He _ IH]; [reflexivity|].
  cbn [fold_left]. now rewrite He.
Qed.

Lemma fill_covers {S} (make : str -> S -> str * S)
      (entities : list EntityDetector.DetectedEntity) (d : dict) (s : S) :
  Forall (fun e => dict_contains (EntityDetector.text e)
                                 (fst (fill make entities d s)) = true)
         entities.
Proof.
  destruct (set_adds_spec entities (keys d)) as [_ I].
  rewrite <- (fill_keys make entities d s) in I.
  apply Forall_forall. intros e He. rewrite dict_contains_keys.
  apply existsb_exists. exists (EntityDetector.text e).
  split; [|apply str_eqb_refl]. apply I. right. now apply in_map.
Qed.

Lemma generate_replacements_again (entities : EntityDetector.Entities)
      (st : state) :
  generate_replacements entities (generate_replacements entities st)
  = generate_replacements entities st.
Proof.
  unfold generate_replacements at 2 3.
  pose proof (fill_covers (fun _ => faker_name)
                (EntityDetector.persons entities) (persons (mapping st))
                (faker st)) as Cp.
  destruct (fill (fun _ => faker_name) _ _ _) as [ps f1].
  pose proof (fill_covers (fun _ => generate_valid_cpf)
                (EntityDetector.cpfs entities) (cpfs (mapping st))
                (random st)) as Cc.
  destruct (fill (fun _ => generate_valid_cpf) _ _ _) as [cs g1].
  pose proof (fill_covers (fun _ => generate_valid_rg)
                (EntityDetector.rgs entities) (rgs (mapping st)) g1) as Cr.
  destruct (fill (fun _ => generate_valid_rg) _ _ _) as [rs g2].
  pose proof (fill_covers _generate_adult_date
                (EntityDetector.dates entities) (dates (mapping st)) g2) as Cd.
  destruct (fill _generate_adult_date _ _ _) as [ds g3].
  cbn [fst] in *. unfold generate_replacements.
  cbn [mapping faker random persons cpfs rgs dates].
  rewrite (fill_covered _ _ ps f1 Cp), (fill_covered _ _ cs g3 Cc),
    (fill_covered _ _ rs g3 Cr), (fill_covered _ _ ds g3 Cd).
  reflexivity.
Qed.

(** X20.  A second call of [anonymize] with the same text on the same
    instance returns the same text and mapping as the first and leaves the
    instance as the first call left it: no entry is added or changed, no
    name and no random number is drawn. *)
Theorem anonymize_same_text_again (nlp : EntityDetector.pipeline)
        (current_year : Z) (txt : str) (st : state) :
  anonymize nlp current_year txt (snd (anonymize nlp current_year txt st))
  = anonymize nlp current_year txt st.
Proof.
  unfold anonymize. cbv zeta. cbn [snd].
  now rewrite generate_replacements_again.
Qed.
